(** * The rerank proxy of [server/gemma_proxy.py]

    A shallow embedding of the [/api/rerank] handler: the prompt it builds
    from the request (lines 38-55), the invocation of the inference process
    (line 59) and the interpretation of its output (lines 60-69).

    Python objects that reach the handler come from JSON, so one type of
    values stands for them.  Text is a list of Unicode code points.
    Exceptions are explicit: a computation returns [Ok v] or [Raise e].

    Of the limits of the interpreter, the decoder has the limit on the
    digits of an integer literal (4300 by default).  The request is decoded
    under the same limit, so [str] of an [index] stays within it.  The
    recursion limit is not modelled. *)

From Stdlib Require Import ZArith NArith List String Ascii Bool Lia Permutation.
From Stdlib Require Import Floats.SpecFloat.
From Stdlib Require DecimalPos DecimalFacts.
Import ListNotations.
Open Scope Z_scope.

(** ** Exceptions and the error monad *)

(** The exception classes the handler can meet; all of them derive from
    Python's [Exception]. *)
Inductive exn : Type :=
| TypeError
| ValueError
| OverflowError
| AttributeError
| JSONDecodeError
| RecursionError
| FileNotFoundError
| PermissionError
| TimeoutExpired
| OSError
| UnicodeDecodeError.

Inductive result (A : Type) : Type :=
| Ok (a : A)
| Raise (e : exn).
Arguments Ok {A} a.
Arguments Raise {A} e.

Definition bind {A B} (m : result A) (k : A -> result B) : result B :=
  match m with
  | Ok a => k a
  | Raise e => Raise e
  end.

Notation "x <- m ;; k" := (bind m (fun x => k))
  (at level 61, m at next level, right associativity).
Notation "' pat <- m ;; k" := (bind m (fun x => match x with pat => k end))
  (at level 61, pat pattern, m at next level, right associativity).

(** [[f(x) for x in l]]: elements are evaluated in order and the first
    exception ends the evaluation. *)
Fixpoint mapM {A B} (f : A -> result B) (l : list A) : result (list B) :=
  match l with
  | [] => Ok []
  | x :: r => y <- f x ;; ys <- mapM f r ;; Ok (y :: ys)
  end.

(** ** Text *)

Definition char := N.
Definition str := list char.

Definition ch (a : ascii) : char := N_of_ascii a.

(** An ASCII literal as text. *)
Definition lit (s : string) : str := map ch (list_ascii_of_string s).

Definition is_ch (a : ascii) (c : char) : bool := N.eqb c (ch a).

Fixpoint str_eqb (s t : str) : bool :=
  match s, t with
  | [], [] => true
  | c :: s', d :: t' => N.eqb c d && str_eqb s' t'
  | _, _ => false
  end.

Definition NL : char := 10%N.
Definition QUOTE : char := 34%N.
Definition is_quote (c : char) : bool := N.eqb c QUOTE.
Definition BACKTICK : char := 96%N.

(** [str.isspace] on one code point: the whitespace of the Unicode
    character database. *)
Definition isspace (c : char) : bool :=
  ((9 <=? c) && (c <=? 13) || (28 <=? c) && (c <=? 32)
   || (c =? 133) || (c =? 160) || (c =? 5760)
   || (8192 <=? c) && (c <=? 8202)
   || (c =? 8232) || (c =? 8233) || (c =? 8239) || (c =? 8287)
   || (c =? 12288))%N.

Fixpoint lstrip (p : char -> bool) (s : str) : str :=
  match s with
  | c :: r => if p c then lstrip p r else s
  | [] => []
  end.

Definition rstrip (p : char -> bool) (s : str) : str :=
  rev (lstrip p (rev s)).

(** [s.strip()] *)
Definition strip (s : str) : str := rstrip isspace (lstrip isspace s).

Definition mem (c : char) (chars : str) : bool := existsb (N.eqb c) chars.

(** [s.strip(chars)] *)
Definition strip_chars (chars : str) (s : str) : str :=
  rstrip (fun c => mem c chars) (lstrip (fun c => mem c chars) s).

(** [s.startswith(p)] *)
Fixpoint startswith (p s : str) : bool :=
  match p, s with
  | [], _ => true
  | a :: p', b :: s' => N.eqb a b && startswith p' s'
  | _ :: _, [] => false
  end.

(** [s.split(c, 1)] for a one-character separator: [None] when [c] does not
    occur (the split has one element), else the text before and after the
    first occurrence. *)
Fixpoint split1 (c : char) (s : str) : option (str * str) :=
  match s with
  | [] => None
  | d :: r =>
      if N.eqb d c then Some ([], r)
      else match split1 c r with
           | Some (a, b) => Some (d :: a, b)
           | None => None
           end
  end.

(** [sep.join(l)] *)
Fixpoint join (sep : str) (l : list str) : str :=
  match l with
  | [] => []
  | [x] => x
  | x :: r => x ++ sep ++ join sep r
  end.

(** ** Numbers as text *)

Fixpoint uint_digits (u : Decimal.uint) : str :=
  match u with
  | Decimal.Nil => []
  | Decimal.D0 r => ch "0" :: uint_digits r
  | Decimal.D1 r => ch "1" :: uint_digits r
  | Decimal.D2 r => ch "2" :: uint_digits r
  | Decimal.D3 r => ch "3" :: uint_digits r
  | Decimal.D4 r => ch "4" :: uint_digits r
  | Decimal.D5 r => ch "5" :: uint_digits r
  | Decimal.D6 r => ch "6" :: uint_digits r
  | Decimal.D7 r => ch "7" :: uint_digits r
  | Decimal.D8 r => ch "8" :: uint_digits r
  | Decimal.D9 r => ch "9" :: uint_digits r
  end.

(** [str(n)] for an [int]. *)
Definition str_of_int (n : Z) : str :=
  match n with
  | Z0 => lit "0"
  | Zpos p => uint_digits (Pos.to_uint p)
  | Zneg p => ch "-" :: uint_digits (Pos.to_uint p)
  end.

(** ** Floats

    A Python [float] is a binary64 number: [spec_float] of the standard
    library, with precision 53 and maximal exponent 1024. *)

Definition prec64 : Z := 53.
Definition emax64 : Z := 1024.

(** [float(n)] for an [int]: the nearest binary64 number, ties to even;
    [OverflowError] when that is out of range. *)
Definition float_of_int (n : Z) : result spec_float :=
  match binary_normalize prec64 emax64 n 0 false with
  | S754_infinity _ => Raise OverflowError
  | x => Ok x
  end.

(** [int(x)] for a [float]: the integer part, towards zero. *)
Definition int_of_float (x : spec_float) : result Z :=
  match x with
  | S754_nan => Raise ValueError
  | S754_infinity _ => Raise OverflowError
  | S754_zero _ => Ok 0
  | S754_finite s m e =>
      let a := if 0 <=? e then Zpos m * 2 ^ e else Zpos m / 2 ^ (- e) in
      Ok (if s then - a else a)
  end.

(** The quotient [n / d] rounded to the nearest integer, ties to even
    ([0 <= n], [0 < d]). *)
Definition div_half_even (n d : Z) : Z :=
  let q := n / d in
  match 2 * (n mod d) ?= d with
  | Lt => q
  | Gt => q + 1
  | Eq => if Z.even q then q else q + 1
  end.

(** [m * 2^e * 10^d] rounded to an integer: the digits of the fixed-point
    rendering with [d] decimals. *)
Definition scaled (d : nat) (m : positive) (e : Z) : Z :=
  if 0 <=? e then Zpos m * 2 ^ e * 10 ^ Z.of_nat d
  else div_half_even (Zpos m * 10 ^ Z.of_nat d) (2 ^ (- e)).

Definition zfill (width : nat) (s : str) : str :=
  repeat (ch "0") (width - List.length s) ++ s.

Definition fixed (d : nat) (q : Z) : str :=
  str_of_int (q / 10 ^ Z.of_nat d)
  ++ match d with
     | O => []
     | _ => ch "." :: zfill d (str_of_int (q mod 10 ^ Z.of_nat d))
     end.

Definition minus (s : bool) : str := if s then lit "-" else [].

(** [format(x, '.<d>f')] for a [float]. *)
Definition format_float (d : nat) (x : spec_float) : str :=
  match x with
  | S754_nan => lit "nan"
  | S754_infinity s => minus s ++ lit "inf"
  | S754_zero s => minus s ++ fixed d 0
  | S754_finite s m e => minus s ++ fixed d (scaled d m e)
  end.

(** ** Values *)

#[warnings="-register-all"]
Inductive value : Type :=
| VNone
| VBool (b : bool)
| VInt (n : Z)
| VFloat (x : spec_float)
| VStr (s : str)
| VList (l : list value)
| VDict (d : list (str * value)).

(** A [dict] keeps one binding per key, in insertion order. *)
Fixpoint dict_lookup {A} (k : str) (d : list (str * A)) : option A :=
  match d with
  | [] => None
  | (k', v) :: r => if str_eqb k k' then Some v else dict_lookup k r
  end.

Fixpoint dict_set {A} (k : str) (v : A) (d : list (str * A)) : list (str * A) :=
  match d with
  | [] => [(k, v)]
  | (k', v') :: r =>
      if str_eqb k k' then (k', v) :: r else (k', v') :: dict_set k v r
  end.

(** [d.get(k)] *)
Definition get (d : list (str * value)) (k : str) : value :=
  match dict_lookup k d with
  | Some v => v
  | None => VNone
  end.

(** [bool(v)] *)
Definition truthy (v : value) : bool :=
  match v with
  | VNone => false
  | VBool b => b
  | VInt n => negb (n =? 0)
  | VFloat (S754_zero _) => false
  | VFloat _ => true
  | VStr s => negb (Nat.eqb (List.length s) 0)
  | VList l => negb (Nat.eqb (List.length l) 0)
  | VDict d => negb (Nat.eqb (List.length d) 0)
  end.

(** [int(b)] for a [bool]. *)
Definition int_of_bool (b : bool) : Z := if b then 1 else 0.

(** [format(v, '.<d>f')]: floats are rendered, an [int] (and a [bool], which
    is one) goes through [float], and every other object refuses the
    format. *)
Definition format_f (d : nat) (v : value) : result str :=
  match v with
  | VFloat x => Ok (format_float d x)
  | VInt n => x <- float_of_int n ;; Ok (format_float d x)
  | VBool b => x <- float_of_int (int_of_bool b) ;; Ok (format_float d x)
  | VStr _ => Raise ValueError
  | VNone | VList _ | VDict _ => Raise TypeError
  end.

(** [isinstance(v, list)] *)
Definition isinstance_list (v : value) : bool :=
  match v with VList _ => true | _ => false end.

(** [isinstance(v, int)]: [bool] is a subclass of [int]. *)
Definition isinstance_int (v : value) : bool :=
  match v with VInt _ | VBool _ => true | _ => false end.

(** ** [json.loads]

    The decoder of Python's [json] package (scanner and decoder), on text.
    [scan_once] and the two loops take the text that is left and return the
    value read with the text after it.  The recursion is on [fuel]; the
    decoder is run with more fuel than the text can use
    ([loads_enough_fuel] below). *)

Module Json.

Definition is_ws (c : char) : bool :=
  is_ch " " c || (c =? 9)%N || (c =? 10)%N || (c =? 13)%N.

(** [WHITESPACE.match(s, i).end()] *)
Definition skip_ws (s : str) : str := lstrip is_ws s.

Definition is_digit (c : char) : bool := ((48 <=? c) && (c <=? 57))%N.

Fixpoint span_digits (s : str) : str * str :=
  match s with
  | c :: r =>
      if is_digit c then let (ds, r') := span_digits r in (c :: ds, r')
      else ([], s)
  | [] => ([], [])
  end.

(** The number written by decimal digits, most significant first. *)
Definition nat_of_digits (ds : str) : Z :=
  fold_left (fun acc c => 10 * acc + (Z.of_N c - 48)) ds 0.

(** [sys.get_int_max_str_digits()], the interpreter's default. *)
Definition INT_MAX_STR_DIGITS : nat := 4300.

(** [int(text)] on an optional sign and digits: [ValueError] when there
    are more digits than the limit. *)
Definition int_of_text (neg : bool) (ds : str) : result Z :=
  if Nat.ltb INT_MAX_STR_DIGITS (List.length ds) then Raise ValueError
  else Ok (if neg then - nat_of_digits ds else nat_of_digits ds).

(** [float(text)]: the binary64 number nearest to [m * 10^e], ties to
    even, with the sign [neg]. *)
Definition float_of_decimal (neg : bool) (m e : Z) : spec_float :=
  match m with
  | Zpos p =>
      if 0 <=? e then
        binary_normalize prec64 emax64
          (if neg then - (m * 10 ^ e) else m * 10 ^ e) 0 false
      else
        SFdiv prec64 emax64 (S754_finite neg p 0)
              (S754_finite false (Z.to_pos (10 ^ (- e))) 0)
  | _ => S754_zero neg
  end.

(** [NUMBER_RE], in three groups.  The integer: an optional minus sign,
    then a single zero or a non-zero digit followed by digits. *)
Definition match_integer (s : str) : option (bool * str * str) :=
  let (neg, s1) :=
    match s with
    | c :: r => if is_ch "-" c then (true, r) else (false, s)
    | [] => (false, s)
    end in
  match s1 with
  | c :: r =>
      if is_ch "0" c then Some (neg, [c], r)
      else if is_digit c then
        let (ds, r') := span_digits r in Some (neg, c :: ds, r')
      else None
  | [] => None
  end.

(** The fraction: a point and at least one digit. *)
Definition match_frac (s : str) : option str * str :=
  match s with
  | c :: r =>
      if is_ch "." c then
        match span_digits r with
        | ([], _) => (None, s)
        | (ds, r') => (Some ds, r')
        end
      else (None, s)
  | [] => (None, s)
  end.

(** The exponent: [e] or [E], an optional sign and at least one digit. *)
Definition match_exp (s : str) : option (bool * str) * str :=
  match s with
  | c :: r =>
      if is_ch "e" c || is_ch "E" c then
        let (neg, r1) :=
          match r with
          | d :: r' =>
              if is_ch "-" d then (true, r')
              else if is_ch "+" d then (false, r')
              else (false, r)
          | [] => (false, r)
          end in
        match span_digits r1 with
        | ([], _) => (None, s)
        | (ds, r2) => (Some (neg, ds), r2)
        end
      else (None, s)
  | [] => (None, s)
  end.

(** The number branch of the scanner: [None] when [NUMBER_RE] does not
    match; an [int] when neither fraction nor exponent is present, else a
    [float].  The conversion of an [int] can raise. *)
Definition match_number (s : str) : option (result value * str) :=
  match match_integer s with
  | None => None
  | Some (neg, ints, r1) =>
      let (frac, r2) := match_frac r1 in
      let (exp, r3) := match_exp r2 in
      match frac, exp with
      | None, None =>
          Some (n <- int_of_text neg ints ;; Ok (VInt n), r3)
      | _, _ =>
          let fs := match frac with Some ds => ds | None => [] end in
          let e := match exp with
                   | Some (eneg, ds) =>
                       if eneg then - nat_of_digits ds else nat_of_digits ds
                   | None => 0
                   end in
          Some (Ok (VFloat (float_of_decimal neg (nat_of_digits (ints ++ fs))
                                            (e - Z.of_nat (List.length fs)))),
                r3)
      end
  end.

Definition hexval (c : char) : option N :=
  if is_digit c then Some (c - 48)%N
  else if ((97 <=? c) && (c <=? 102))%N then Some (c - 87)%N
  else if ((65 <=? c) && (c <=? 70))%N then Some (c - 55)%N
  else None.

(** [_decode_uXXXX]: four hexadecimal digits. *)
Definition decode_uXXXX (a b c d : char) : result N :=
  match hexval a, hexval b, hexval c, hexval d with
  | Some x, Some y, Some z, Some w => Ok (((x * 16 + y) * 16 + z) * 16 + w)%N
  | _, _, _, _ => Raise JSONDecodeError
  end.

(** [BACKSLASH]: the one-character escapes. *)
Definition backslash (c : char) : option char :=
  if is_quote c then Some c
  else if is_ch "\" c then Some c
  else if is_ch "/" c then Some c
  else if is_ch "b" c then Some 8%N
  else if is_ch "f" c then Some 12%N
  else if is_ch "n" c then Some 10%N
  else if is_ch "r" c then Some 13%N
  else if is_ch "t" c then Some 9%N
  else None.

(** [scanstring] in strict mode, from the character after the opening
    quote: the decoded text and what follows the closing quote. *)
Fixpoint scanstring (s : str) : result (str * str) :=
  match s with
  | [] => Raise JSONDecodeError
  | c :: r =>
      if is_quote c then Ok ([], r)
      else if (c <? 32)%N then Raise JSONDecodeError
      else if is_ch "\" c then
        match r with
        | [] => Raise JSONDecodeError
        | esc :: r1 =>
            if is_ch "u" esc then
              match r1 with
              | h1 :: h2 :: h3 :: h4 :: r2 =>
                  uni <- decode_uXXXX h1 h2 h3 h4 ;;
                  let single := '(t, r') <- scanstring r2 ;; Ok (uni :: t, r') in
                  if ((55296 <=? uni) && (uni <=? 56319))%N then
                    match r2 with
                    | b :: u :: r3 =>
                        if is_ch "\" b && is_ch "u" u then
                          match r3 with
                          | g1 :: g2 :: g3 :: g4 :: r4 =>
                              uni2 <- decode_uXXXX g1 g2 g3 g4 ;;
                              if ((56320 <=? uni2) && (uni2 <=? 57343))%N then
                                '(t, r') <- scanstring r4 ;;
                                Ok ((65536 + ((uni - 55296) * 1024 + (uni2 - 56320)))%N :: t, r')
                              else single
                          | _ => Raise JSONDecodeError
                          end
                        else single
                    | _ => single
                    end
                  else single
              | _ => Raise JSONDecodeError
              end
            else
              match backslash esc with
              | Some d => '(t, r') <- scanstring r1 ;; Ok (d :: t, r')
              | None => Raise JSONDecodeError
              end
        end
      else '(t, r') <- scanstring r ;; Ok (c :: t, r')
  end.

Fixpoint scan_once (fuel : nat) (s : str) {struct fuel}
  : result (value * str) :=
  match fuel with
  | O => Raise RecursionError
  | S fuel' =>
      match s with
      | [] => Raise JSONDecodeError
      | c :: r =>
          if is_quote c then
            '(t, r') <- scanstring r ;; Ok (VStr t, r')
          else if is_ch "{" c then
            match skip_ws r with
            | d :: r' =>
                if is_ch "}" d then Ok (VDict [], r')
                else if is_quote d then object_items fuel' r' []
                else Raise JSONDecodeError
            | [] => Raise JSONDecodeError
            end
          else if is_ch "[" c then
            match skip_ws r with
            | d :: r' =>
                if is_ch "]" d then Ok (VList [], r')
                else array_items fuel' (d :: r') []
            | [] => array_items fuel' [] []
            end
          else if startswith (lit "null") s then Ok (VNone, skipn 4 s)
          else if startswith (lit "true") s then Ok (VBool true, skipn 4 s)
          else if startswith (lit "false") s then Ok (VBool false, skipn 5 s)
          else
            match match_number s with
            | Some (v, r') => x <- v ;; Ok (x, r')
            | None =>
                if startswith (lit "NaN") s then
                  Ok (VFloat S754_nan, skipn 3 s)
                else if startswith (lit "Infinity") s then
                  Ok (VFloat (S754_infinity false), skipn 8 s)
                else if startswith (lit "-Infinity") s then
                  Ok (VFloat (S754_infinity true), skipn 9 s)
                else Raise JSONDecodeError
            end
      end
  end

(** [JSONArray], the loop: [s] starts at an element. *)
with array_items (fuel : nat) (s : str) (values : list value) {struct fuel}
  : result (value * str) :=
  match fuel with
  | O => Raise RecursionError
  | S fuel' =>
      '(v, s1) <- scan_once fuel' s ;;
      let values := values ++ [v] in
      match skip_ws s1 with
      | c :: r =>
          if is_ch "]" c then Ok (VList values, r)
          else if is_ch "," c then array_items fuel' (skip_ws r) values
          else Raise JSONDecodeError
      | [] => Raise JSONDecodeError
      end
  end

(** [JSONObject], the loop: [s] starts after the opening quote of a key;
    the pairs go through [dict]. *)
with object_items (fuel : nat) (s : str) (pairs : list (str * value))
       {struct fuel} : result (value * str) :=
  match fuel with
  | O => Raise RecursionError
  | S fuel' =>
      '(key, s1) <- scanstring s ;;
      match skip_ws s1 with
      | c :: s2 =>
          if is_ch ":" c then
            '(v, s3) <- scan_once fuel' (skip_ws s2) ;;
            let pairs := dict_set key v pairs in
            match skip_ws s3 with
            | d :: s4 =>
                if is_ch "}" d then Ok (VDict pairs, s4)
                else if is_ch "," d then
                  match skip_ws s4 with
                  | q :: s5 =>
                      if is_quote q then object_items fuel' s5 pairs
                      else Raise JSONDecodeError
                  | [] => Raise JSONDecodeError
                  end
                else Raise JSONDecodeError
            | [] => Raise JSONDecodeError
            end
          else Raise JSONDecodeError
      | [] => Raise JSONDecodeError
      end
  end.

(** [JSONDecoder.decode]: one value between optional whitespace, and
    nothing after it. *)
Definition decode (s : str) : result value :=
  '(obj, r) <- scan_once (2 * List.length s + 2) (skip_ws s) ;;
  match skip_ws r with
  | [] => Ok obj
  | _ :: _ => Raise JSONDecodeError
  end.

(** [json.loads] on text: a leading byte-order mark is refused. *)
Definition loads (s : str) : result value :=
  if startswith [65279%N] s then Raise JSONDecodeError else decode s.

End Json.

(** ** The request *)

Definition MODEL : str := lit "gemma3:4b".
Definition JSON_ONLY : str :=
  lit "Return ONLY a JSON list (e.g., [3,1,2]). No prose.".

Record Candidate : Type := {
  index : Z;
  pred_ms : spec_float;
  steps : value   (* [Any | None]; [VNone] when absent *)
}.

Record RerankIn : Type := {
  ctx : list (str * value);
  candidates : list Candidate
}.

(** ** The prompt (lines 38-55) *)

(** The second line of the prompt. *)
Definition GOAL : str :=
  lit "GOAL: pick best tradeoff of speed vs hazard. Prefer lower pred_ms unless heat/gas imply sensing first. Avoid redundant waits.".

(** [abbr], line 52. *)
Definition abbr : list (str * str) :=
  [ (lit "lidar_scan", lit "L"); (lit "thermal_snap", lit "T");
    (lit "gas_sniff", lit "G"); (lit "audio_probe", lit "A");
    (lit "wait", lit "W") ].

(** [f"{int(bool(v))}"] *)
Definition flag (v : value) : str := str_of_int (int_of_bool (truthy v)).

(** The f-string of line 39; its fields are evaluated from left to
    right. *)
Definition ctx_line (c : list (str * value)) : result str :=
  size <- format_f 1 (get c (lit "size")) ;;
  clutter <- format_f 2 (get c (lit "clutter")) ;;
  Ok (lit "CTX: " ++ size ++ lit "," ++ clutter
      ++ lit "," ++ flag (get c (lit "heat"))
      ++ lit "," ++ flag (get c (lit "gas"))
      ++ lit ", " ++ flag (get c (lit "noise"))).

(** Lines 47-50: [flat += step] for each [step] that is a list. *)
Definition flatten_steps (l : list value) : list value :=
  fold_left
    (fun flat step => match step with VList t => flat ++ t | _ => flat end)
    l [].

Section Encoder.

(** [c.upper()] for a one-character text above the ASCII range: the full
    upper-case mapping of Python's Unicode database, which is not part of
    the repository. *)
Variable unicode_upper : char -> str.

Definition upper_char (c : char) : str :=
  if (c <? 128)%N then
    [if ((97 <=? c) && (c <=? 122))%N then (c - 32)%N else c]
  else unicode_upper c.

(** [s.upper()] *)
Definition upper (s : str) : str := flat_map upper_char s.

(** [abbr.get(s, s[:1].upper())], line 53.  The default is an argument of
    the call, so it is evaluated before the lookup: a token that is not
    text raises there. *)
Definition token_code (s : value) : result str :=
  match s with
  | VStr t =>
      let default := upper (firstn 1 t) in
      Ok (match dict_lookup t abbr with
          | Some a => a
          | None => default
          end)
  | VList _ => Raise AttributeError
  | VNone | VBool _ | VInt _ | VFloat _ | VDict _ => Raise TypeError
  end.

(** [sig], lines 45-53. *)
Definition signature (st : value) : result str :=
  match st with
  | VList l =>
      let flat := firstn 8 (flatten_steps l) in
      codes <- mapM token_code flat ;;
      Ok (join [] codes)
  | _ => Ok []
  end.

(** The f-string of line 54. *)
Definition candidate_line (c : Candidate) : result str :=
  sig <- signature (steps c) ;;
  ms <- int_of_float (pred_ms c) ;;
  Ok (str_of_int (index c) ++ lit ":" ++ str_of_int ms ++ lit "," ++ sig).

(** The loop of lines 43-54 on the list [lines]. *)
Fixpoint append_candidates (cs : list Candidate) (lines : list str)
  : result (list str) :=
  match cs with
  | [] => Ok lines
  | c :: r =>
      l <- candidate_line c ;;
      append_candidates r (lines ++ [l])
  end.

(** [prompt], lines 38-55. *)
Definition prompt (req : RerankIn) : result str :=
  head <- ctx_line (ctx req) ;;
  lines <- append_candidates (candidates req)
             [head; GOAL; JSON_ONLY; lit "CANDIDATES:"] ;;
  Ok (join [NL] lines).

End Encoder.

(** ** The model's answer (lines 60-67) *)

Definition FENCE : str := lit "```".

(** Lines 60-63, on the captured output. *)
Definition clean (stdout : str) : str :=
  let txt := strip stdout in
  if startswith FENCE txt then
    let txt := strip (strip_chars (lit "`") txt) in
    match split1 NL txt with
    | Some (_, rest) => strip rest
    | None => txt
    end
  else txt.

(** Lines 65-67. *)
Definition check (out : value) : result value :=
  match out with
  | VList l => if forallb isinstance_int l then Ok out else Raise ValueError
  | _ => Raise ValueError
  end.

(** Lines 60-67: the value the [try] block returns from the captured
    output. *)
Definition validate (stdout : str) : result value :=
  out <- Json.loads (clean stdout) ;;
  check out.

(** ** The handler (lines 37-69) *)

(** What [subprocess.run] returns with [capture_output=True]. *)
Record CompletedProcess : Type := {
  returncode : Z;
  stdout : str;
  stderr : str
}.

(** The fallback of line 69. *)
Definition FALLBACK : value := VList [].

Section Handler.

Variable unicode_upper : char -> str.

(** [subprocess.run(args, input=..., text=True, capture_output=True,
    timeout=...)]: the process is outside the program.  Without [check=True]
    the call returns the completed process whatever its exit status; it
    raises when the program cannot be started, when the time is over and
    when reading or decoding its streams fails. *)
Variable subprocess_run : list str -> str -> Z -> result CompletedProcess.

(** The [try] block, lines 58-67. *)
Definition invoke (p : str) : result value :=
  proc <- subprocess_run [lit "ollama"; lit "run"; MODEL] p 15 ;;
  validate (stdout proc).

(** [rerank]: the prompt is built before the [try]; [Raise] is an
    exception that leaves the handler. *)
Definition rerank (req : RerankIn) : result value :=
  p <- prompt unicode_upper req ;;
  Ok (match invoke p with
      | Ok out => out
      | Raise _ => FALLBACK
      end).

End Handler.

(** ** Vocabulary of the specification *)

(** The abbreviation of a token as the specification words it: the table,
    and for any other token its first character in upper case (nothing for
    the empty token). *)
Definition abbreviation (unicode_upper : char -> str) (t : str) : str :=
  if str_eqb t (lit "lidar_scan") then lit "L"
  else if str_eqb t (lit "thermal_snap") then lit "T"
  else if str_eqb t (lit "gas_sniff") then lit "G"
  else if str_eqb t (lit "audio_probe") then lit "A"
  else if str_eqb t (lit "wait") then lit "W"
  else match t with
       | [] => []
       | c :: _ => upper_char unicode_upper c
       end.

(** The tokens a top-level element of [steps] contributes: its elements
    when it is a sequence, nothing otherwise. *)
Definition stage_tokens (stage : value) : list value :=
  match stage with
  | VList t => t
  | _ => []
  end.

(** [n] is the float [x] cut towards zero: [|n| <= |x| < |n| + 1], with the
    sign of [x]; the float [S754_finite s m e] is [m * 2^e], negated when
    [s] is set. *)
Definition truncated (x : spec_float) (n : Z) : Prop :=
  match x with
  | S754_zero _ => n = 0
  | S754_finite s m e =>
      (if s then n <= 0 else 0 <= n)
      /\ (if 0 <=? e then Z.abs n = Zpos m * 2 ^ e
          else Z.abs n * 2 ^ (- e) <= Zpos m < (Z.abs n + 1) * 2 ^ (- e))
  | _ => False
  end.

(** A float that is neither an infinity nor a NaN. *)
Definition is_finite (x : spec_float) : bool :=
  match x with
  | S754_zero _ | S754_finite _ _ _ => true
  | _ => false
  end.

(** A JSON integer, and a JSON integer or boolean. *)
Definition is_integer (v : value) : bool :=
  match v with VInt _ => true | _ => false end.
Definition is_integer_or_boolean (v : value) : bool :=
  match v with VInt _ | VBool _ => true | _ => false end.

(** An element that is not an integer, as claim C6 words it: a boolean is
    one. *)
Definition not_an_integer (v : value) : bool := negb (is_integer v).

(** The parsed value is not a sequence, or it is a sequence with an element
    that is not an integer: the outputs of claim C6 as it is worded. *)
Definition wrong_shape_as_worded (out : value) : bool :=
  match out with
  | VList l => existsb not_an_integer l
  | _ => true
  end.

(** An element that is neither an integer nor a boolean: a float, a string,
    [null], a list or an object. *)
Definition neither_integer_nor_boolean (v : value) : bool :=
  negb (is_integer_or_boolean v).

(** The parsed value is not a sequence, or it is a sequence with an element
    that is neither an integer nor a boolean. *)
Definition wrong_shape (out : value) : bool :=
  match out with
  | VList l => existsb neither_integer_nor_boolean l
  | _ => true
  end.

(** The text handed to the parser as claim C7 words it: whitespace is
    stripped; when the text begins with the fence, the backticks are
    stripped at both ends and, when a newline is left, everything up to and
    including the first newline goes; whitespace is stripped again. *)
Definition clean_as_worded (stdout : str) : str :=
  let txt := strip stdout in
  if startswith FENCE txt then
    let txt := strip_chars (lit "`") txt in
    strip (match split1 NL txt with
           | Some (_, rest) => rest
           | None => txt
           end)
  else txt.

(** A scanning step that succeeds leaves less text than it was given, and
    it does not run out of fuel. *)
Definition consumes {A} (s : str) (res : result (A * str)) : Prop :=
  (forall a r, res = Ok (a, r) -> (List.length r < List.length s)%nat)
  /\ res <> Raise RecursionError.

(** A non-empty token that begins with an ASCII character. *)
Definition ascii_initial (t : str) : bool :=
  match t with
  | c :: _ => (c <? 128)%N
  | [] => false
  end.

(** An invocation that failed: the call raised, or the process ended with
    a status other than zero. *)
Definition failed (o : result CompletedProcess) : Prop :=
  match o with
  | Raise _ => True
  | Ok proc => returncode proc <> 0
  end.

(** The command line of line 59. *)
Definition ARGV : list str := [lit "ollama"; lit "run"; MODEL].

(** ** Example inputs *)

(** A stand-in for the Unicode table on the examples, which are ASCII. *)
Definition no_unicode_upper : char -> str := fun c => [c].

(** The decimal [m * 10^e] as a float. *)
Definition dec (m e : Z) : spec_float := Json.float_of_decimal false m e.

(** [{size: 2.0, clutter: 0.5, heat: true, gas: false, noise: false}] *)
Definition example_ctx : list (str * value) :=
  [ (lit "size", VFloat (dec 20 (-1))); (lit "clutter", VFloat (dec 5 (-1)));
    (lit "heat", VBool true); (lit "gas", VBool false);
    (lit "noise", VBool false) ].

(** [{index: 0, pred_ms: 120, steps: [["lidar_scan", "wait"]]}] *)
Definition example_candidate : Candidate :=
  {| index := 0; pred_ms := dec 120 0;
     steps := VList [VList [VStr (lit "lidar_scan"); VStr (lit "wait")]] |}.

Definition example_request : RerankIn :=
  {| ctx := example_ctx; candidates := [example_candidate] |}.

(** A candidate whose only stage holds a number instead of a token. *)
Definition example_bad_token : Candidate :=
  {| index := 0; pred_ms := dec 120 0; steps := VList [VList [VInt 1]] |}.

(** Three stages of four tokens, and three stages of four empty tokens. *)
Definition example_stages : value :=
  VList [ VList (map VStr [lit "lidar_scan"; lit "wait"; lit "foo"; lit "gas_sniff"]);
          VList (map VStr [lit "thermal_snap"; lit "audio_probe"; lit "bar"; lit "wait"]);
          VList (map VStr [lit "wait"; lit "lidar_scan"; lit "zip"; lit "zap"]) ].

Definition empty_stages : value :=
  VList [ VList (map VStr [[]; []; []; []]);
          VList (map VStr [[]; []; []; []]);
          VList (map VStr [[]; []; []; []]) ].

(** The context of the example with its fields in another order. *)
Definition example_ctx_reordered : list (str * value) :=
  [ (lit "noise", VBool false); (lit "heat", VBool true);
    (lit "clutter", VFloat (dec 5 (-1))); (lit "gas", VBool false);
    (lit "size", VFloat (dec 20 (-1))) ].

(** A fenced answer: the fence with its language tag, the list, the closing
    fence, on three lines. *)
Definition example_fenced : str :=
  lit "```json" ++ [NL] ++ lit "[2,0,1]" ++ [NL] ++ lit "```".

(** The answer [[1, "2", 3]], with a numeric string. *)
Definition example_numeric_string : str :=
  lit "[1, " ++ [QUOTE] ++ lit "2" ++ [QUOTE] ++ lit ", 3]".

(** The answer [[1, true, 3]], with a boolean. *)
Definition example_boolean_element : str := lit "[1, true, 3]".

(** A fenced answer with the list on the line of the opening fence. *)
Definition example_fenced_inline : str :=
  lit "```[1]" ++ [NL] ++ lit "```".

(** A process that ends with the given status and output. *)
Definition exits (status : Z) (out : str) : list str -> str -> Z -> result CompletedProcess :=
  fun _ _ _ => Ok {| returncode := status; stdout := out; stderr := [] |}.

(** A call that raises. *)
Definition raises (e : exn) : list str -> str -> Z -> result CompletedProcess :=
  fun _ _ _ => Raise e.

(** ** Vocabulary of the further properties *)

(** A value the formats [.1f] and [.2f] accept: a float (NaN and the
    infinities included), a boolean, or an integer that [float] converts
    without [OverflowError]. *)
Definition formattable (v : value) : bool :=
  match v with
  | VFloat _ | VBool _ => true
  | VInt n => match float_of_int n with Ok _ => true | Raise _ => false end
  | VNone | VStr _ | VList _ | VDict _ => false
  end.

Definition is_text (v : value) : bool :=
  match v with VStr _ => true | _ => false end.

(** The tokens line 53 looks at: the first 8 of the flattened stages; none
    when [steps] is not a list. *)
Definition first_tokens (st : value) : list value :=
  match st with
  | VList l => firstn 8 (flat_map stage_tokens l)
  | _ => []
  end.

(** A candidate whose line can be written: the tokens looked at are texts
    and [pred_ms] is finite. *)
Definition encodable (c : Candidate) : bool :=
  forallb is_text (first_tokens (steps c)) && is_finite (pred_ms c).

(** A token that is a text, empty or beginning with an ASCII character. *)
Definition plain_token (v : value) : bool :=
  match v with
  | VStr [] => true
  | VStr (c :: _) => (c <? 128)%N
  | _ => false
  end.

(** An integer whose decimal writing is within the limit on the digits of
    an integer literal. *)
Definition within_digit_limit (n : Z) : bool :=
  Nat.leb (List.length (str_of_int (Z.abs n))) Json.INT_MAX_STR_DIGITS.

(** The JSON text of a list of integers: the items between brackets,
    separated by a comma and the whitespace [ws]. *)
Definition render_ints (ws : str) (l : list Z) : str :=
  lit "[" ++ join (lit "," ++ ws) (map str_of_int l) ++ lit "]".

(** A fenced block: the opening fence with [tag] on its line, the body, the
    closing fence on a line of its own. *)
Definition fenced (tag body : str) : str :=
  FENCE ++ tag ++ NL :: body ++ NL :: FENCE.

(** A language tag: not empty, without whitespace, and not beginning with
    a backtick. *)
Definition language_tag (t : str) : bool :=
  match t with
  | c :: _ => negb (N.eqb c BACKTICK) && forallb (fun x => negb (isspace x)) t
  | [] => false
  end.

(** A character a JSON value can begin with, for the decoder. *)
Definition value_start (c : char) : bool :=
  is_quote c || is_ch "{" c || is_ch "[" c || is_ch "n" c || is_ch "t" c
  || is_ch "f" c || is_ch "-" c || Json.is_digit c || is_ch "N" c
  || is_ch "I" c.

(** * Properties *)

Lemma Ok_inj {A} (a b : A) : Ok a = Ok b -> a = b.
Proof. congruence. Qed.

(** ** Text *)

Lemma lstrip_split (p : char -> bool) (s : str) :
  exists pre, s = pre ++ lstrip p s /\ Forall (fun c => p c = true) pre.
Proof.
  induction s as [|c r IH]; simpl.
  - exists []. split; [reflexivity | constructor].
  - destruct (p c) eqn:Hc.
    + destruct IH as [pre [E F]].
      exists (c :: pre). split.
      * simpl. now rewrite <- E.
      * now constructor.
    + exists []. split; [reflexivity | constructor].
Qed.

Lemma lstrip_head (p : char -> bool) (s : str) c r :
  lstrip p s = c :: r -> p c = false.
Proof.
  induction s as [|d t IH]; simpl; [discriminate|].
  destruct (p d) eqn:Hd; [exact IH|].
  intros E. injection E as -> _. exact Hd.
Qed.

Lemma rstrip_split (p : char -> bool) (s : str) :
  exists suf, s = rstrip p s ++ suf /\ Forall (fun c => p c = true) suf.
Proof.
  unfold rstrip.
  destruct (lstrip_split p (rev s)) as [pre [E F]].
  exists (rev pre). split.
  - rewrite <- rev_app_distr, <- E. symmetry. apply rev_involutive.
  - now apply Forall_rev.
Qed.

Lemma rstrip_last (p : char -> bool) (s : str) r c :
  rstrip p s = r ++ [c] -> p c = false.
Proof.
  unfold rstrip. intros E.
  apply (f_equal (@rev char)) in E.
  rewrite rev_involutive, rev_app_distr in E. simpl in E.
  now apply lstrip_head in E.
Qed.

Lemma rstrip_head (p : char -> bool) (s : str) c r :
  rstrip p s = c :: r -> exists t, s = c :: t.
Proof.
  intros E. destruct (rstrip_split p s) as [suf [Es _]].
  rewrite E in Es. simpl in Es. eauto.
Qed.

(** [s.strip(chars)] removes a run of [chars] at each end and leaves a text
    that neither starts nor ends with one of them. *)
Lemma strip_chars_split (chars s : str) :
  exists lead trail,
    s = lead ++ strip_chars chars s ++ trail
    /\ Forall (fun c => mem c chars = true) lead
    /\ Forall (fun c => mem c chars = true) trail
    /\ (forall c r, strip_chars chars s = c :: r -> mem c chars = false)
    /\ (forall r c, strip_chars chars s = r ++ [c] -> mem c chars = false).
Proof.
  unfold strip_chars. set (p := fun c => mem c chars).
  destruct (lstrip_split p s) as [lead [E1 F1]].
  destruct (rstrip_split p (lstrip p s)) as [trail [E2 F2]].
  exists lead, trail. repeat split; trivial.
  - rewrite <- E2. exact E1.
  - intros c r E. destruct (rstrip_head _ _ _ _ E) as [t Et].
    now apply lstrip_head in Et.
  - intros r c E. now apply rstrip_last in E.
Qed.

Lemma mem_one (c d : char) : mem c [d] = true -> d = c.
Proof.
  unfold mem. simpl. rewrite orb_false_r. intros E.
  apply N.eqb_eq in E. now symmetry.
Qed.

Lemma split1_none (c : char) (s : str) :
  ~ In c s -> split1 c s = None.
Proof.
  induction s as [|d r IH]; simpl; [reflexivity|].
  intros H. destruct (N.eqb_spec d c) as [->|_].
  - exfalso. apply H. now left.
  - rewrite IH; [reflexivity|]. intros Hin. apply H. now right.
Qed.

Lemma split1_first (c : char) (pre post : str) :
  ~ In c pre -> split1 c (pre ++ c :: post) = Some (pre, post).
Proof.
  induction pre as [|d r IH]; simpl; intros H.
  - now rewrite N.eqb_refl.
  - destruct (N.eqb_spec d c) as [->|_].
    + exfalso. apply H. now left.
    + rewrite IH; [reflexivity|]. intros Hin. apply H. now right.
Qed.

Lemma join_empty (l : list str) : join [] l = List.concat l.
Proof.
  induction l as [|x [|y r] IH]; simpl in *.
  - reflexivity.
  - now rewrite app_nil_r.
  - now rewrite IH.
Qed.

Lemma join_cons (sep x : str) (l : list str) :
  join sep (x :: l) = x ++ List.concat (map (fun y => sep ++ y) l).
Proof.
  revert x. induction l as [|y r IH]; intros x.
  - simpl. symmetry. apply app_nil_r.
  - change (join sep (x :: y :: r)) with (x ++ sep ++ join sep (y :: r)).
    rewrite IH. simpl. now rewrite <- app_assoc.
Qed.

Lemma str_eqb_eq (s t : str) : str_eqb s t = true <-> s = t.
Proof.
  revert t. induction s as [|c r IH]; intros [|d t]; simpl;
    try (split; [discriminate | discriminate]); [tauto|].
  rewrite andb_true_iff, N.eqb_eq, IH.
  split; [intros [-> ->]; reflexivity | intros E; injection E; auto].
Qed.

(** ** The decoder never runs out of fuel *)

Lemma lstrip_length (p : char -> bool) (s : str) :
  (List.length (lstrip p s) <= List.length s)%nat.
Proof.
  induction s as [|c r IH]; simpl; [lia|].
  destruct (p c); simpl; lia.
Qed.

Lemma skip_ws_length (s : str) :
  (List.length (Json.skip_ws s) <= List.length s)%nat.
Proof. apply lstrip_length. Qed.

Lemma span_digits_length (s : str) :
  (List.length (snd (Json.span_digits s)) <= List.length s)%nat.
Proof.
  induction s as [|c r IH]; simpl; [lia|].
  destruct (Json.is_digit c); simpl; [|lia].
  destruct (Json.span_digits r); simpl in *. lia.
Qed.

Lemma match_integer_length (s : str) neg ds r :
  Json.match_integer s = Some (neg, ds, r) ->
  (List.length r < List.length s)%nat.
Proof.
  unfold Json.match_integer.
  destruct s as [|c t]; [discriminate|].
  destruct (is_ch "-" c).
  - destruct t as [|d u]; [discriminate|].
    destruct (is_ch "0" d).
    + intros E. injection E as _ _ <-. simpl. lia.
    + destruct (Json.is_digit d); [|discriminate].
      pose proof (span_digits_length u) as H.
      destruct (Json.span_digits u). intros E. injection E as _ _ <-.
      simpl in *. lia.
  - destruct (is_ch "0" c).
    + intros E. injection E as _ _ <-. simpl. lia.
    + destruct (Json.is_digit c); [|discriminate].
      pose proof (span_digits_length t) as H.
      destruct (Json.span_digits t). intros E. injection E as _ _ <-.
      simpl in *. lia.
Qed.

Lemma match_frac_length (s : str) :
  (List.length (snd (Json.match_frac s)) <= List.length s)%nat.
Proof.
  unfold Json.match_frac. destruct s as [|c t]; simpl; [lia|].
  destruct (is_ch "." c); simpl; [|lia].
  pose proof (span_digits_length t) as H.
  destruct (Json.span_digits t) as [[|d ds] r]; simpl in *; lia.
Qed.

Lemma match_exp_length (s : str) :
  (List.length (snd (Json.match_exp s)) <= List.length s)%nat.
Proof.
  unfold Json.match_exp. destruct s as [|c t]; simpl; [lia|].
  destruct (is_ch "e" c || is_ch "E" c); simpl; [|lia].
  destruct t as [|d u].
  - simpl. lia.
  - destruct (is_ch "-" d); [|destruct (is_ch "+" d)].
    + pose proof (span_digits_length u) as H.
      destruct (Json.span_digits u) as [[|x ds] r]; simpl in *; lia.
    + pose proof (span_digits_length u) as H.
      destruct (Json.span_digits u) as [[|x ds] r]; simpl in *; lia.
    + pose proof (span_digits_length (d :: u)) as H.
      destruct (Json.span_digits (d :: u)) as [[|x ds] r]; simpl in *; lia.
Qed.

Lemma match_number_length (s : str) v r :
  Json.match_number s = Some (v, r) ->
  (List.length r < List.length s)%nat.
Proof.
  unfold Json.match_number.
  destruct (Json.match_integer s) as [[[neg ints] r1]|] eqn:Ei; [|discriminate].
  apply match_integer_length in Ei.
  pose proof (match_frac_length r1) as Hf.
  destruct (Json.match_frac r1) as [frac r2].
  pose proof (match_exp_length r2) as He.
  destruct (Json.match_exp r2) as [exp r3].
  simpl in *.
  destruct frac, exp; intros E; injection E as _ <-; lia.
Qed.

Lemma match_number_raise (s : str) (e : exn) (r : str) :
  Json.match_number s = Some (Raise e, r) -> e = ValueError.
Proof.
  unfold Json.match_number.
  destruct (Json.match_integer s) as [[[neg ints] r1]|]; [|discriminate].
  destruct (Json.match_frac r1) as [frac r2].
  destruct (Json.match_exp r2) as [exp r3].
  destruct frac, exp; try discriminate.
  unfold Json.int_of_text.
  destruct (Nat.ltb Json.INT_MAX_STR_DIGITS (List.length ints)); cbn [bind];
    [|discriminate].
  intros E. now injection E as <- _.
Qed.

Lemma consumes_ok {A} (s : str) (a : A) (r : str) :
  (List.length r < List.length s)%nat -> consumes s (Ok (a, r)).
Proof.
  intros H. split; [|discriminate].
  intros a' r' E. injection E as _ <-. exact H.
Qed.

Lemma consumes_raise {A} (s : str) (e : exn) :
  e <> RecursionError -> consumes s (@Raise (A * str) e).
Proof. intros H. split; [discriminate | congruence]. Qed.

Lemma consumes_bind {A B} (s s' : str) (m : result (A * str))
      (k : A * str -> result (B * str)) :
  consumes s' m ->
  (forall a r, (List.length r < List.length s')%nat -> consumes s (k (a, r))) ->
  consumes s (bind m k).
Proof.
  intros [Hm Hf] Hk. destruct m as [[a r]|e]; simpl.
  - apply Hk. exact (Hm a r eq_refl).
  - apply consumes_raise. congruence.
Qed.

Lemma scanstring_consumes_upto (n : nat) (s : str) :
  (List.length s <= n)%nat -> consumes s (Json.scanstring s).
Proof.
  revert s. induction n as [|n IH]; intros s Hs.
  - destruct s; [|simpl in Hs; lia].
    now apply consumes_raise.
  - destruct s as [|c r]; [now apply consumes_raise|].
    simpl in Hs.
    assert (Hrec : forall (f : str -> str) (u : str),
               (List.length u < List.length (c :: r))%nat ->
               consumes (c :: r)
                 (bind (Json.scanstring u) (fun x => let '(t, r') := x in Ok (f t, r')))).
    { intros f u Hu. apply consumes_bind with (s' := u).
      - apply IH. simpl in Hu. lia.
      - intros a r0 Hr0. simpl. apply consumes_ok. lia. }
    cbn [Json.scanstring].
    destruct (is_quote c); [apply consumes_ok; simpl; lia|].
    destruct (c <? 32)%N; [now apply consumes_raise|].
    destruct (is_ch "\" c); [|apply Hrec; simpl; lia].
    destruct r as [|esc r1]; [now apply consumes_raise|].
    destruct (is_ch "u" esc).
    + destruct r1 as [|h1 [|h2 [|h3 [|h4 r2]]]]; try now apply consumes_raise.
      destruct (Json.decode_uXXXX h1 h2 h3 h4) as [uni|e] eqn:Eu.
      2:{ simpl. apply consumes_raise.
          unfold Json.decode_uXXXX in Eu.
          repeat match type of Eu with
                 | context [match ?x with _ => _ end] => destruct x
                 end; congruence. }
      cbn [bind].
      assert (Hsingle : consumes (c :: esc :: h1 :: h2 :: h3 :: h4 :: r2)
                (bind (Json.scanstring r2) (fun x => let '(t, r') := x in Ok (uni :: t, r')))).
      { apply Hrec. simpl. lia. }
      destruct ((55296 <=? uni) && (uni <=? 56319))%N; [|exact Hsingle].
      destruct r2 as [|b [|u r3]]; try exact Hsingle.
      destruct (is_ch "\" b && is_ch "u" u); [|exact Hsingle].
      destruct r3 as [|g1 [|g2 [|g3 [|g4 r4]]]]; try now apply consumes_raise.
      destruct (Json.decode_uXXXX g1 g2 g3 g4) as [uni2|e] eqn:Eu2.
      2:{ simpl. apply consumes_raise.
          unfold Json.decode_uXXXX in Eu2.
          repeat match type of Eu2 with
                 | context [match ?x with _ => _ end] => destruct x
                 end; congruence. }
      cbn [bind].
      destruct ((56320 <=? uni2) && (uni2 <=? 57343))%N; [|exact Hsingle].
      apply Hrec. simpl. lia.
    + destruct (Json.backslash esc); [|now apply consumes_raise].
      apply Hrec. simpl. lia.
Qed.

Lemma scanstring_consumes (s : str) : consumes s (Json.scanstring s).
Proof. now apply (scanstring_consumes_upto (List.length s)). Qed.

Lemma consumes_weaken {A} (s s' : str) (res : result (A * str)) :
  consumes s' res -> (List.length s' <= List.length s)%nat -> consumes s res.
Proof.
  intros [H1 H2] Hle. split; [|exact H2].
  intros a r E. specialize (H1 a r E). lia.
Qed.

Lemma skipn_shorter (n : nat) (c : char) (r : str) :
  (List.length (skipn (S n) (c :: r)) < List.length (c :: r))%nat.
Proof. rewrite length_skipn. simpl. lia. Qed.

Lemma scan_consumes (fuel : nat) :
  (forall s, (2 * List.length s + 1 <= fuel)%nat ->
             consumes s (Json.scan_once fuel s))
  /\ (forall s vs, (2 * List.length s + 2 <= fuel)%nat ->
                   consumes s (Json.array_items fuel s vs))
  /\ (forall s ps, (2 * List.length s + 2 <= fuel)%nat ->
                   consumes s (Json.object_items fuel s ps)).
Proof.
  induction fuel as [|fuel [IHs [IHa IHo]]].
  - repeat split; intros; lia.
  - split; [|split].
    + (* scan_once *)
      intros s Hf. cbn [Json.scan_once].
      destruct s as [|c r]; [now apply consumes_raise|].
      simpl List.length in Hf.
      destruct (is_quote c).
      { apply consumes_bind with (s' := r); [apply scanstring_consumes|].
        intros t r' Hr'. simpl. apply consumes_ok. simpl. lia. }
      destruct (is_ch "{" c).
      { pose proof (skip_ws_length r) as Hw.
        destruct (Json.skip_ws r) as [|d r']; [now apply consumes_raise|].
        simpl in Hw.
        destruct (is_ch "}" d); [apply consumes_ok; simpl; lia|].
        destruct (is_quote d); [|now apply consumes_raise].
        apply consumes_weaken with (s' := r'); [|simpl; lia].
        apply IHo. lia. }
      destruct (is_ch "[" c).
      { pose proof (skip_ws_length r) as Hw.
        destruct (Json.skip_ws r) as [|d r'].
        - apply consumes_weaken with (s' := []); [|simpl; lia].
          apply IHa. simpl. lia.
        - simpl in Hw.
          destruct (is_ch "]" d); [apply consumes_ok; simpl; lia|].
          apply consumes_weaken with (s' := d :: r'); [|simpl; lia].
          apply IHa. simpl. lia. }
      destruct (startswith (lit "null") (c :: r));
        [apply consumes_ok; apply skipn_shorter|].
      destruct (startswith (lit "true") (c :: r));
        [apply consumes_ok; apply skipn_shorter|].
      destruct (startswith (lit "false") (c :: r));
        [apply consumes_ok; apply skipn_shorter|].
      destruct (Json.match_number (c :: r)) as [[[v|e] r']|] eqn:En.
      { apply consumes_ok. now apply match_number_length in En. }
      { apply consumes_raise. apply match_number_raise in En. now subst e. }
      destruct (startswith (lit "NaN") (c :: r));
        [apply consumes_ok; apply skipn_shorter|].
      destruct (startswith (lit "Infinity") (c :: r));
        [apply consumes_ok; apply skipn_shorter|].
      destruct (startswith (lit "-Infinity") (c :: r));
        [apply consumes_ok; apply skipn_shorter|].
      now apply consumes_raise.
    + (* array_items *)
      intros s vs Hf. cbn [Json.array_items].
      apply consumes_bind with (s' := s); [apply IHs; lia|].
      intros v s1 Hs1. cbn beta iota.
      pose proof (skip_ws_length s1) as Hw.
      destruct (Json.skip_ws s1) as [|c r]; [now apply consumes_raise|].
      simpl in Hw.
      destruct (is_ch "]" c); [apply consumes_ok; lia|].
      destruct (is_ch "," c); [|now apply consumes_raise].
      pose proof (skip_ws_length r) as Hw2.
      apply consumes_weaken with (s' := Json.skip_ws r); [|lia].
      apply IHa. lia.
    + (* object_items *)
      intros s ps Hf. cbn [Json.object_items].
      apply consumes_bind with (s' := s); [apply scanstring_consumes|].
      intros key s1 Hs1. cbn beta iota.
      pose proof (skip_ws_length s1) as Hw.
      destruct (Json.skip_ws s1) as [|c s2]; [now apply consumes_raise|].
      simpl in Hw.
      destruct (is_ch ":" c); [|now apply consumes_raise].
      pose proof (skip_ws_length s2) as Hw2.
      apply consumes_bind with (s' := Json.skip_ws s2); [apply IHs; lia|].
      intros v s3 Hs3. cbn beta iota.
      pose proof (skip_ws_length s3) as Hw3.
      destruct (Json.skip_ws s3) as [|d s4]; [now apply consumes_raise|].
      simpl in Hw3.
      destruct (is_ch "}" d); [apply consumes_ok; lia|].
      destruct (is_ch "," d); [|now apply consumes_raise].
      pose proof (skip_ws_length s4) as Hw4.
      destruct (Json.skip_ws s4) as [|q s5]; [now apply consumes_raise|].
      simpl in Hw4.
      destruct (is_quote q); [|now apply consumes_raise].
      apply consumes_weaken with (s' := s5); [|lia].
      apply IHo. lia.
Qed.

Lemma loads_enough_fuel (s : str) : Json.loads s <> Raise RecursionError.
Proof.
  unfold Json.loads. destruct (startswith [65279%N] s); [discriminate|].
  unfold Json.decode.
  pose proof (skip_ws_length s) as Hw.
  destruct (proj1 (scan_consumes (2 * List.length s + 2)) (Json.skip_ws s))
    as [_ Hf]; [lia|].
  destruct (Json.scan_once (2 * List.length s + 2) (Json.skip_ws s))
    as [[obj r]|e]; simpl.
  - destruct (Json.skip_ws r); discriminate.
  - congruence.
Qed.

(** ** The answer of the model *)

Lemma check_accepts (l : list value) :
  forallb isinstance_int l = true -> check (VList l) = Ok (VList l).
Proof. intros H. simpl. now rewrite H. Qed.

Lemma check_rejects (out : value) :
  wrong_shape out = true -> check out = Raise ValueError.
Proof.
  destruct out as [| | | | |l|]; try reflexivity.
  simpl. intros H.
  replace (forallb isinstance_int l) with false; [reflexivity|].
  symmetry. apply not_true_is_false. intros F.
  apply existsb_exists in H. destruct H as [x [Hin Hx]].
  rewrite forallb_forall in F. specialize (F x Hin).
  now destruct x.
Qed.

Lemma validate_accepts (raw : str) (l : list value) :
  Json.loads (clean raw) = Ok (VList l) ->
  forallb isinstance_int l = true ->
  validate raw = Ok (VList l).
Proof.
  intros Hl Hi. unfold validate. rewrite Hl. simpl bind.
  now apply check_accepts.
Qed.

Lemma validate_rejects (raw : str) (out : value) :
  Json.loads (clean raw) = Ok out ->
  wrong_shape out = true ->
  validate raw = Raise ValueError.
Proof.
  intros Hl Hs. unfold validate. rewrite Hl. simpl bind.
  now apply check_rejects.
Qed.

Lemma clean_unfenced (raw : str) :
  startswith FENCE (strip raw) = false -> clean raw = strip raw.
Proof. intros H. unfold clean. now rewrite H. Qed.

Lemma clean_fenced_one_line (raw : str) :
  startswith FENCE (strip raw) = true ->
  ~ In NL (strip (strip_chars (lit "`") (strip raw))) ->
  clean raw = strip (strip_chars (lit "`") (strip raw)).
Proof.
  intros H Hn. unfold clean. rewrite H.
  now rewrite (split1_none _ _ Hn).
Qed.

Lemma clean_fenced_tagged (raw tag rest : str) :
  startswith FENCE (strip raw) = true ->
  strip (strip_chars (lit "`") (strip raw)) = tag ++ NL :: rest ->
  ~ In NL tag ->
  clean raw = strip rest.
Proof.
  intros H E Hn. unfold clean. rewrite H, E.
  now rewrite (split1_first _ _ _ Hn).
Qed.

(** ** The handler *)

Section HandlerFacts.

Variable unicode_upper : char -> str.
Variable subprocess_run : list str -> str -> Z -> result CompletedProcess.

Lemma rerank_completed (req : RerankIn) (p : str) (proc : CompletedProcess) :
  prompt unicode_upper req = Ok p ->
  subprocess_run ARGV p 15 = Ok proc ->
  rerank unicode_upper subprocess_run req = Ok (match validate (stdout proc) with
                    | Ok out => out
                    | Raise _ => FALLBACK
                    end).
Proof.
  intros Hp Hr. unfold rerank, invoke. rewrite Hp. simpl bind.
  fold ARGV. now rewrite Hr.
Qed.

Lemma rerank_raised (req : RerankIn) (p : str) (e : exn) :
  prompt unicode_upper req = Ok p ->
  subprocess_run ARGV p 15 = Raise e ->
  rerank unicode_upper subprocess_run req = Ok FALLBACK.
Proof.
  intros Hp Hr. unfold rerank, invoke. rewrite Hp. simpl bind.
  fold ARGV. now rewrite Hr.
Qed.

Lemma rerank_prompt_raised (req : RerankIn) (e : exn) :
  prompt unicode_upper req = Raise e -> rerank unicode_upper subprocess_run req = Raise e.
Proof. intros Hp. unfold rerank. now rewrite Hp. Qed.

End HandlerFacts.

(** ** Claims on the validator *)

(** C7 as stated fails: for the answer with the list on the line of the
    opening fence, stripping the backticks leaves a newline, so the claim
    drops the list with its line and parses the empty text; the code strips
    whitespace before it looks for a newline, finds none and returns
    [[1]]. *)
Lemma fence_newline_counterexample :
  startswith FENCE (strip example_fenced_inline) = true
  /\ clean_as_worded example_fenced_inline = []
  /\ (out <- Json.loads (clean_as_worded example_fenced_inline) ;; check out)
     = Raise JSONDecodeError
  /\ clean example_fenced_inline = lit "[1]"
  /\ validate example_fenced_inline = Ok (VList [VInt 1]).
Proof. repeat split; vm_compute; reflexivity. Qed.

(** C7, amended.  When the output, stripped of whitespace, begins with a
    fence of three backticks, the validator removes the backticks at both
    ends (the stripped output is a run of backticks, a core that neither
    starts nor ends with a backtick, and a run of backticks) and then the
    whitespace around the core; when what is left has no newline it is
    parsed as it is, and when it has one, what follows the first newline,
    stripped of whitespace, is parsed.  The fenced answer with the language
    tag validates to [[2,0,1]]. *)
Theorem validate_strips_fence :
  (forall raw : str,
      startswith FENCE (strip raw) = true ->
      exists lead core trail,
        strip raw = lead ++ core ++ trail
        /\ Forall (eq BACKTICK) lead
        /\ Forall (eq BACKTICK) trail
        /\ hd_error core <> Some BACKTICK
        /\ hd_error (rev core) <> Some BACKTICK
        /\ (~ In NL (strip core) ->
            validate raw = (out <- Json.loads (strip core) ;; check out))
        /\ (forall tag rest,
               strip core = tag ++ NL :: rest -> ~ In NL tag ->
               validate raw = (out <- Json.loads (strip rest) ;; check out)))
  /\ validate example_fenced = Ok (VList [VInt 2; VInt 0; VInt 1]).
Proof.
  split; [|vm_compute; reflexivity].
  intros raw Hf.
  destruct (strip_chars_split (lit "`") (strip raw))
    as [lead [trail [E [Fl [Ft [Hh Hl]]]]]].
  exists lead, (strip_chars (lit "`") (strip raw)), trail.
  assert (Hb : forall l, Forall (fun c => mem c (lit "`") = true) l ->
                         Forall (eq BACKTICK) l).
  { intros l F. eapply Forall_impl; [|exact F].
    intros c Hc. now apply mem_one in Hc. }
  repeat split; auto.
  - destruct (strip_chars (lit "`") (strip raw)) as [|c r] eqn:Ec;
      [discriminate|].
    simpl. intros X. injection X as ->.
    specialize (Hh _ _ eq_refl). discriminate.
  - destruct (rev (strip_chars (lit "`") (strip raw))) as [|c r] eqn:Ec;
      [discriminate|].
    simpl. intros X. injection X as ->.
    apply (f_equal (@rev char)) in Ec. rewrite rev_involutive in Ec.
    simpl in Ec. specialize (Hl _ _ Ec). discriminate.
  - intros Hn. unfold validate. now rewrite clean_fenced_one_line.
  - intros tag rest Er Hn. unfold validate.
    now rewrite (clean_fenced_tagged raw tag rest).
Qed.

Lemma validate_strips_fence_witness :
  exists lead core trail,
    strip example_fenced = lead ++ core ++ trail
    /\ Forall (eq BACKTICK) lead
    /\ Forall (eq BACKTICK) trail
    /\ hd_error core <> Some BACKTICK
    /\ hd_error (rev core) <> Some BACKTICK
    /\ (~ In NL (strip core) ->
        validate example_fenced
        = (out <- Json.loads (strip core) ;; check out))
    /\ (forall tag rest,
           strip core = tag ++ NL :: rest -> ~ In NL tag ->
           validate example_fenced
           = (out <- Json.loads (strip rest) ;; check out)).
Proof.
  apply (proj1 validate_strips_fence example_fenced).
  vm_compute. reflexivity.
Defined.

Section ValidatorClaims.

Variable unicode_upper : char -> str.
Variable subprocess_run : list str -> str -> Z -> result CompletedProcess.

(** C5.  When the output of the process parses to a sequence of integers,
    the handler returns that sequence as it is, whatever the request:
    order and duplicates are kept and no element is compared with the
    candidates' indices. *)
Theorem rerank_returns_list_as_is
    (req : RerankIn) (p : str) (proc : CompletedProcess) (l : list value) :
  prompt unicode_upper req = Ok p ->
  subprocess_run ARGV p 15 = Ok proc ->
  Json.loads (clean (stdout proc)) = Ok (VList l) ->
  forallb is_integer l = true ->
  rerank unicode_upper subprocess_run req = Ok (VList l).
Proof.
  intros Hp Hr Hl Hi.
  rewrite (rerank_completed _ _ req p proc Hp Hr).
  rewrite (validate_accepts _ l Hl); [reflexivity|].
  rewrite forallb_forall in *. intros x Hx.
  specialize (Hi x Hx). now destruct x.
Qed.

(** C6, amended.  When the output of the process parses to a value that
    is not a sequence, or to a sequence with an element that is neither an
    integer nor a boolean (a float, a string, [null], a list, an object),
    validation raises and the handler returns the empty fallback, never a
    part of the list; the output [[1, 2.5, 3]] yields the empty list. *)
Theorem rerank_rejects_wrong_shape
    (req : RerankIn) (p : str) :
  prompt unicode_upper req = Ok p ->
  (forall proc out,
      subprocess_run ARGV p 15 = Ok proc ->
      Json.loads (clean (stdout proc)) = Ok out ->
      wrong_shape out = true ->
      validate (stdout proc) = Raise ValueError
      /\ rerank unicode_upper subprocess_run req = Ok FALLBACK)
  /\ (forall proc,
         subprocess_run ARGV p 15 = Ok proc ->
         stdout proc = lit "[1, 2.5, 3]" ->
         rerank unicode_upper subprocess_run req = Ok FALLBACK).
Proof.
  intros Hp. split.
  - intros proc out Hr Hl Hs.
    pose proof (validate_rejects _ out Hl Hs) as Hv.
    split; [exact Hv|].
    rewrite (rerank_completed _ _ req p proc Hp Hr). now rewrite Hv.
  - intros proc Hr Ho.
    rewrite (rerank_completed _ _ req p proc Hp Hr). now rewrite Ho.
Qed.

(** C10.  The integer check takes a boolean for an integer: when the
    output of the process parses to a sequence of integers and booleans,
    the handler returns that sequence as it is, not the fallback. *)
Theorem rerank_accepts_booleans
    (req : RerankIn) (p : str) (proc : CompletedProcess) (l : list value) :
  prompt unicode_upper req = Ok p ->
  subprocess_run ARGV p 15 = Ok proc ->
  Json.loads (clean (stdout proc)) = Ok (VList l) ->
  forallb is_integer_or_boolean l = true ->
  validate (stdout proc) = Ok (VList l)
  /\ rerank unicode_upper subprocess_run req = Ok (VList l).
Proof.
  intros Hp Hr Hl Hi.
  assert (Hv : validate (stdout proc) = Ok (VList l)).
  { apply validate_accepts; [exact Hl|].
    rewrite forallb_forall in *. intros x Hx.
    specialize (Hi x Hx). now destruct x. }
  split; [exact Hv|].
  rewrite (rerank_completed _ _ req p proc Hp Hr). now rewrite Hv.
Qed.

(** C1, amended.  Once the prompt is built: a call that raises (the
    program cannot be started, the time is over, reading the streams
    fails) makes the handler return the empty fallback; the exit status is
    not looked at, so a process that has ended, with status zero or not,
    gives what its output validates to and the fallback when it does not
    validate, as when it is empty; in every case the handler returns a
    body and nothing reaches the client as an error. *)
Theorem rerank_invocation_failure (req : RerankIn) (p : str) :
  prompt unicode_upper req = Ok p ->
  (forall e, subprocess_run ARGV p 15 = Raise e -> rerank unicode_upper subprocess_run req = Ok FALLBACK)
  /\ (forall proc,
         subprocess_run ARGV p 15 = Ok proc ->
         rerank unicode_upper subprocess_run req = Ok (match validate (stdout proc) with
                           | Ok out => out
                           | Raise _ => FALLBACK
                           end))
  /\ (forall proc,
         subprocess_run ARGV p 15 = Ok proc ->
         returncode proc <> 0 ->
         strip (stdout proc) = [] ->
         rerank unicode_upper subprocess_run req = Ok FALLBACK)
  /\ (exists body, rerank unicode_upper subprocess_run req = Ok body).
Proof.
  intros Hp. repeat split.
  - intros e Hr. exact (rerank_raised _ _ req p e Hp Hr).
  - intros proc Hr. exact (rerank_completed _ _ req p proc Hp Hr).
  - intros proc Hr _ He.
    rewrite (rerank_completed _ _ req p proc Hp Hr).
    unfold validate, clean. rewrite He. reflexivity.
  - destruct (subprocess_run ARGV p 15) as [proc|e] eqn:Hr.
    + eexists. exact (rerank_completed _ _ req p proc Hp Hr).
    + eexists. exact (rerank_raised _ _ req p e Hp Hr).
Qed.

End ValidatorClaims.

(** The prompt of the example request. *)
Lemma example_prompt :
  prompt no_unicode_upper example_request
  = Ok (join [NL]
          [lit "CTX: 2.0,0.50,1,0, 0"; GOAL; JSON_ONLY; lit "CANDIDATES:";
           lit "0:120,LW"]).
Proof. vm_compute. reflexivity. Qed.

Lemma rerank_returns_list_as_is_witness :
  rerank no_unicode_upper (exits 0 (lit "[7, 7, -1, 0]")) example_request
  = Ok (VList [VInt 7; VInt 7; VInt (-1); VInt 0]).
Proof.
  eapply (rerank_returns_list_as_is no_unicode_upper
            (exits 0 (lit "[7, 7, -1, 0]")) example_request).
  - vm_compute. reflexivity.
  - reflexivity.
  - vm_compute. reflexivity.
  - vm_compute. reflexivity.
Defined.

(** C6 as stated fails: the output [[1, true, 3]] parses to a sequence
    with an element that is not an integer, the boolean, and the handler
    returns the sequence, not the fallback. *)
Lemma boolean_element_counterexample :
  Json.loads (clean example_boolean_element)
  = Ok (VList [VInt 1; VBool true; VInt 3])
  /\ wrong_shape_as_worded (VList [VInt 1; VBool true; VInt 3]) = true
  /\ validate example_boolean_element
     = Ok (VList [VInt 1; VBool true; VInt 3])
  /\ rerank no_unicode_upper (exits 0 example_boolean_element) example_request
     = Ok (VList [VInt 1; VBool true; VInt 3])
  /\ rerank no_unicode_upper (exits 0 example_boolean_element) example_request
     <> Ok FALLBACK.
Proof.
  split; [|split; [|split; [|split]]]; try (vm_compute; reflexivity).
  vm_compute. discriminate.
Qed.

Lemma rerank_rejects_wrong_shape_witness :
  (validate example_numeric_string = Raise ValueError
   /\ rerank no_unicode_upper (exits 0 example_numeric_string) example_request
      = Ok FALLBACK)
  /\ rerank no_unicode_upper (exits 0 (lit "[1, 2.5, 3]")) example_request
     = Ok FALLBACK.
Proof.
  split.
  - eapply (proj1 (rerank_rejects_wrong_shape no_unicode_upper
                     (exits 0 example_numeric_string) example_request _
                     example_prompt)
              {| returncode := 0; stdout := example_numeric_string;
                 stderr := [] |}).
    + reflexivity.
    + vm_compute. reflexivity.
    + vm_compute. reflexivity.
  - eapply (proj2 (rerank_rejects_wrong_shape no_unicode_upper
                     (exits 0 (lit "[1, 2.5, 3]")) example_request _
                     example_prompt)).
    + reflexivity.
    + reflexivity.
Defined.

Lemma rerank_accepts_booleans_witness :
  validate (lit "[true, false]") = Ok (VList [VBool true; VBool false])
  /\ rerank no_unicode_upper (exits 0 (lit "[true, false]")) example_request
     = Ok (VList [VBool true; VBool false]).
Proof.
  eapply (rerank_accepts_booleans no_unicode_upper
            (exits 0 (lit "[true, false]")) example_request _
            {| returncode := 0; stdout := lit "[true, false]"; stderr := [] |}).
  - vm_compute. reflexivity.
  - reflexivity.
  - vm_compute. reflexivity.
  - vm_compute. reflexivity.
Defined.

(** C1 as stated fails: a process that ends with status 1 after writing
    [[1,2]] is a failed invocation, and the handler returns [[1,2]]. *)
Lemma rerank_nonzero_exit_counterexample :
  failed (exits 1 (lit "[1,2]") ARGV
            (join [NL]
               [lit "CTX: 2.0,0.50,1,0, 0"; GOAL; JSON_ONLY;
                lit "CANDIDATES:"; lit "0:120,LW"]) 15)
  /\ rerank no_unicode_upper (exits 1 (lit "[1,2]")) example_request
     = Ok (VList [VInt 1; VInt 2])
  /\ rerank no_unicode_upper (exits 1 (lit "[1,2]")) example_request
     <> Ok FALLBACK.
Proof.
  split; [|split].
  - simpl. discriminate.
  - vm_compute. reflexivity.
  - vm_compute. discriminate.
Qed.

Lemma rerank_invocation_failure_witness :
  rerank no_unicode_upper (raises TimeoutExpired) example_request = Ok FALLBACK
  /\ rerank no_unicode_upper (raises FileNotFoundError) example_request
     = Ok FALLBACK
  /\ rerank no_unicode_upper (raises OSError) example_request = Ok FALLBACK
  /\ rerank no_unicode_upper (exits 1 []) example_request = Ok FALLBACK.
Proof.
  split; [|split; [|split]].
  - eapply (proj1 (rerank_invocation_failure no_unicode_upper
                     (raises TimeoutExpired) example_request _ example_prompt)).
    reflexivity.
  - eapply (proj1 (rerank_invocation_failure no_unicode_upper
                     (raises FileNotFoundError) example_request _
                     example_prompt)).
    reflexivity.
  - eapply (proj1 (rerank_invocation_failure no_unicode_upper
                     (raises OSError) example_request _ example_prompt)).
    reflexivity.
  - eapply (proj1 (proj2 (proj2 (rerank_invocation_failure no_unicode_upper
                     (exits 1 []) example_request _ example_prompt)))).
    + reflexivity.
    + simpl. discriminate.
    + reflexivity.
Defined.

(** ** The prompt *)

Lemma flatten_steps_acc (l acc : list value) :
  fold_left
    (fun flat step => match step with VList t => flat ++ t | _ => flat end)
    l acc
  = acc ++ flat_map stage_tokens l.
Proof.
  revert acc. induction l as [|x r IH]; intros acc; simpl.
  - now rewrite app_nil_r.
  - rewrite IH. destruct x; simpl; try reflexivity.
    now rewrite app_assoc.
Qed.

(** The loop of lines 47-50 flattens one level and drops what is not a
    list. *)
Lemma flatten_steps_flat_map (l : list value) :
  flatten_steps l = flat_map stage_tokens l.
Proof. unfold flatten_steps. now rewrite flatten_steps_acc. Qed.

Lemma mapM_Forall2 {A B} (f : A -> result B) (l : list A) (ys : list B) :
  mapM f l = Ok ys <-> Forall2 (fun x y => f x = Ok y) l ys.
Proof.
  revert ys. induction l as [|x r IH]; intros ys; simpl.
  - split.
    + intros E. injection E as <-. constructor.
    + intros F. inversion F. reflexivity.
  - split.
    + destruct (f x) as [y|e] eqn:Ex; simpl; [|discriminate].
      destruct (mapM f r) as [zs|e] eqn:Er; simpl; [|discriminate].
      intros E. injection E as <-.
      constructor; [exact Ex | now apply IH].
    + intros F. inversion F as [|x' y r' zs Ex Fr]; subst.
      rewrite Ex. simpl. apply IH in Fr. now rewrite Fr.
Qed.

Section EncoderFacts.

Variable unicode_upper : char -> str.

Lemma token_code_text (t : str) :
  token_code unicode_upper (VStr t) = Ok (abbreviation unicode_upper t).
Proof.
  unfold token_code, abbreviation, abbr, dict_lookup.
  repeat match goal with
         | |- context [str_eqb t ?k] => destruct (str_eqb t k); [reflexivity|]
         end.
  destruct t as [|c r]; simpl; [reflexivity|].
  now rewrite app_nil_r.
Qed.

Lemma mapM_token_code_text (toks : list str) :
  mapM (token_code unicode_upper) (map VStr toks)
  = Ok (map (abbreviation unicode_upper) toks).
Proof.
  induction toks as [|t r IH]; cbn [map mapM]; [reflexivity|].
  rewrite token_code_text. cbn [bind]. now rewrite IH.
Qed.

Lemma signature_not_list (st : value) :
  isinstance_list st = false -> signature unicode_upper st = Ok [].
Proof. destruct st; simpl; try reflexivity. discriminate. Qed.

Lemma signature_tokens (l : list value) (toks : list str) :
  firstn 8 (flat_map stage_tokens l) = map VStr toks ->
  signature unicode_upper (VList l)
  = Ok (List.concat (map (abbreviation unicode_upper) toks)).
Proof.
  intros E. unfold signature.
  rewrite flatten_steps_flat_map, E, mapM_token_code_text. simpl.
  now rewrite join_empty.
Qed.

Lemma abbreviation_ascii_initial (t : str) :
  ascii_initial t = true ->
  List.length (abbreviation unicode_upper t) = 1%nat.
Proof.
  intros H. unfold abbreviation.
  repeat match goal with
         | |- context [str_eqb t ?k] => destruct (str_eqb t k); [reflexivity|]
         end.
  destruct t as [|c r]; [discriminate|]. simpl in H.
  unfold upper_char. now rewrite H.
Qed.

Lemma length_concat_ones (l : list str) :
  Forall (fun x => List.length x = 1%nat) l ->
  List.length (List.concat l) = List.length l.
Proof.
  induction 1 as [|x r Hx _ IH]; simpl; [reflexivity|].
  now rewrite length_app, Hx, IH.
Qed.

Lemma append_candidates_mapM (cs : list Candidate) (lines : list str) :
  append_candidates unicode_upper cs lines
  = (ls <- mapM (candidate_line unicode_upper) cs ;; Ok (lines ++ ls)).
Proof.
  revert lines. induction cs as [|c r IH]; intros lines; simpl.
  - now rewrite app_nil_r.
  - destruct (candidate_line unicode_upper c) as [l|e]; simpl;
      [|reflexivity].
    rewrite IH.
    destruct (mapM (candidate_line unicode_upper) r) as [ls|e]; simpl;
      [|reflexivity].
    now rewrite <- app_assoc.
Qed.

End EncoderFacts.

Lemma int_of_float_truncated (x : spec_float) :
  is_finite x = true -> exists n, int_of_float x = Ok n /\ truncated x n.
Proof.
  destruct x as [s|s| |s m e]; cbn [is_finite int_of_float truncated];
    try discriminate; intros _.
  - exists 0. split; reflexivity.
  - eexists. split; [reflexivity|].
    destruct (Z.leb_spec 0 e) as [He|He].
    + assert (0 < 2 ^ e) by (apply Z.pow_pos_nonneg; lia).
      assert (0 < Zpos m * 2 ^ e) by (apply Z.mul_pos_pos; lia).
      destruct s; split; lia.
    + assert (Hd : 0 < 2 ^ (- e)) by (apply Z.pow_pos_nonneg; lia).
      assert (Ha : 0 <= Zpos m / 2 ^ (- e))
        by (apply Z.div_pos; lia).
      pose proof (Z.mul_div_le (Zpos m) (2 ^ (- e)) Hd) as Hle.
      pose proof (Z.mul_succ_div_gt (Zpos m) (2 ^ (- e)) Hd) as Hgt.
      assert (Hab : Z.abs (Zpos m / 2 ^ (- e)) = Zpos m / 2 ^ (- e))
        by (apply Z.abs_eq; exact Ha).
      destruct s; (split; [lia|]).
      * rewrite Z.abs_opp, Hab. nia.
      * rewrite Hab. nia.
Qed.

Lemma dict_lookup_in {A} (k : str) (v : A) (d : list (str * A)) :
  NoDup (map fst d) -> (dict_lookup k d = Some v <-> In (k, v) d).
Proof.
  induction d as [|[k' v'] r IH]; simpl; intros Hn.
  - split; [discriminate | tauto].
  - inversion Hn as [|? ? Hnot Hr]; subst.
    destruct (str_eqb k k') eqn:Ek.
    + apply str_eqb_eq in Ek. subst k'. split.
      * intros E. injection E as ->. now left.
      * intros [E|Hin]; [injection E as ->; reflexivity|].
        exfalso. apply Hnot. apply (in_map fst) in Hin. exact Hin.
    + rewrite (IH Hr). split; [intros; now right|].
      intros [E|Hin]; [|exact Hin].
      injection E as -> ->.
      assert (str_eqb k k = true) by now apply str_eqb_eq.
      congruence.
Qed.

Lemma dict_lookup_permutation {A} (k : str) (d1 d2 : list (str * A)) :
  NoDup (map fst d1) -> Permutation d1 d2 ->
  dict_lookup k d1 = dict_lookup k d2.
Proof.
  intros Hn Hp.
  assert (Hn2 : NoDup (map fst d2)).
  { eapply Permutation_NoDup; [|exact Hn]. now apply Permutation_map. }
  destruct (dict_lookup k d1) as [v|] eqn:E1.
  - symmetry. apply (dict_lookup_in k v d2 Hn2).
    apply (Permutation_in _ Hp). now apply (dict_lookup_in k v d1 Hn).
  - destruct (dict_lookup k d2) as [v|] eqn:E2; [|reflexivity].
    apply (dict_lookup_in k v d2 Hn2) in E2.
    apply (Permutation_in _ (Permutation_sym Hp)) in E2.
    apply (dict_lookup_in k v d1 Hn) in E2. congruence.
Qed.

Lemma ctx_line_permutation (c1 c2 : list (str * value)) :
  NoDup (map fst c1) -> Permutation c1 c2 -> ctx_line c1 = ctx_line c2.
Proof.
  intros Hn Hp. unfold ctx_line, get.
  now rewrite !(dict_lookup_permutation _ c1 c2 Hn Hp).
Qed.

Lemma ctx_line_missing_size (c : list (str * value)) :
  dict_lookup (lit "size") c = None -> ctx_line c = Raise TypeError.
Proof. intros H. unfold ctx_line, get. now rewrite H. Qed.

(** ** Claims on the prompt *)

(** C2.  Encoding errors leave the handler, whatever the process would
    do: a context without [size] raises [TypeError] at line 39, and so does
    a stage that holds a number at line 53; both lines are outside the
    [try] block, so the request fails. *)
Theorem rerank_encoding_error_escapes
    (unicode_upper : char -> str)
    (subprocess_run : list str -> str -> Z -> result CompletedProcess) :
  rerank unicode_upper subprocess_run {| ctx := []; candidates := [] |}
  = Raise TypeError
  /\ rerank unicode_upper subprocess_run
       {| ctx := example_ctx; candidates := [example_bad_token] |}
     = Raise TypeError.
Proof.
  split.
  - apply rerank_prompt_raised. reflexivity.
  - apply rerank_prompt_raised. vm_compute. reflexivity.
Qed.

(** C3.  For the context of the example the context line is
    [CTX: 2.0,0.50,1,0, 0]: one decimal, two decimals and the three flags,
    with a space after the last comma, which the line of the claim does not
    have. *)
Theorem ctx_line_example :
  ctx_line example_ctx = Ok (lit "CTX: 2.0,0.50,1,0, 0")
  /\ ctx_line example_ctx <> Ok (lit "CTX: 2.0,0.50,1,0,0").
Proof.
  split.
  - vm_compute. reflexivity.
  - vm_compute. discriminate.
Qed.

(** C4 as stated fails: three stages of four empty tokens give the empty
    signature, not eight characters. *)
Lemma signature_empty_tokens_counterexample :
  exists sig,
    signature no_unicode_upper empty_stages = Ok sig
    /\ List.length sig <> 8%nat.
Proof. exists []. split; [vm_compute; reflexivity | discriminate]. Qed.

(** C4, amended.  A [steps] that is not a sequence has the empty signature.
    For a sequence, the top-level elements that are sequences are flattened
    one level and the others dropped; when the first 8 of the flattened
    tokens are texts, the signature is their abbreviations (the table, else
    the first character in upper case, nothing for the empty token) put
    together without separator.  Three stages of four tokens give the
    abbreviations of the first 8 in order: exactly 8 characters when each
    of these is non-empty and begins with an ASCII character. *)
Theorem signature_construction (unicode_upper : char -> str) :
  (forall st, isinstance_list st = false -> signature unicode_upper st = Ok [])
  /\ (forall l, flatten_steps l = flat_map stage_tokens l)
  /\ (forall l toks,
         firstn 8 (flat_map stage_tokens l) = map VStr toks ->
         signature unicode_upper (VList l)
         = Ok (List.concat (map (abbreviation unicode_upper) toks)))
  /\ token_code unicode_upper (VStr []) = Ok []
  /\ (forall s1 s2 s3 : list str,
         List.length s1 = 4%nat -> List.length s2 = 4%nat ->
         List.length s3 = 4%nat ->
         signature unicode_upper
           (VList [VList (map VStr s1); VList (map VStr s2);
                   VList (map VStr s3)])
         = Ok (List.concat (map (abbreviation unicode_upper) (s1 ++ s2)))
         /\ (forallb ascii_initial (s1 ++ s2) = true ->
             List.length
               (List.concat (map (abbreviation unicode_upper) (s1 ++ s2)))
             = 8%nat)).
Proof.
  split; [exact (signature_not_list unicode_upper)|].
  split; [exact flatten_steps_flat_map|].
  split; [exact (signature_tokens unicode_upper)|].
  split; [reflexivity|].
  intros s1 s2 s3 H1 H2 H3. split.
  - apply signature_tokens.
    destruct s1 as [|a1 [|a2 [|a3 [|a4 [|]]]]]; try discriminate.
    destruct s2 as [|b1 [|b2 [|b3 [|b4 [|]]]]]; try discriminate.
    reflexivity.
  - intros Ha. rewrite length_concat_ones.
    + now rewrite length_map, length_app, H1, H2.
    + apply Forall_map. rewrite forallb_forall in Ha.
      apply Forall_forall. intros t Ht.
      apply abbreviation_ascii_initial. now apply Ha.
Qed.

Lemma signature_construction_witness :
  signature no_unicode_upper VNone = Ok []
  /\ signature no_unicode_upper (VList [VInt 5; VList [VStr (lit "wait")]])
     = Ok (lit "W")
  /\ signature no_unicode_upper example_stages = Ok (lit "LWFGTABW")
  /\ List.length (lit "LWFGTABW") = 8%nat.
Proof.
  destruct (signature_construction no_unicode_upper)
    as [Hn [_ [Ht [_ H3]]]].
  split; [|split].
  - apply Hn. reflexivity.
  - apply (Ht [VInt 5; VList [VStr (lit "wait")]] [lit "wait"]). reflexivity.
  - destruct (H3 [lit "lidar_scan"; lit "wait"; lit "foo"; lit "gas_sniff"]
                 [lit "thermal_snap"; lit "audio_probe"; lit "bar"; lit "wait"]
                 [lit "wait"; lit "lidar_scan"; lit "zip"; lit "zap"]
                 eq_refl eq_refl eq_refl) as [Hs Hl].
    split; [exact Hs | exact (Hl eq_refl)].
Defined.

(** C8.  For a candidate whose signature is built and whose [pred_ms] is
    finite, the line is the index, a colon, [pred_ms] cut towards zero as an
    integer, a comma and the signature.  The candidate of the example gives
    [0:120,LW]; 120.7 gives 120 and -120.7 gives -120. *)
Theorem candidate_line_format (unicode_upper : char -> str) :
  (forall (c : Candidate) (sig : str),
      signature unicode_upper (steps c) = Ok sig ->
      is_finite (pred_ms c) = true ->
      exists n,
        truncated (pred_ms c) n
        /\ candidate_line unicode_upper c
           = Ok (str_of_int (index c) ++ lit ":" ++ str_of_int n
                 ++ lit "," ++ sig))
  /\ candidate_line unicode_upper example_candidate = Ok (lit "0:120,LW")
  /\ candidate_line unicode_upper
       {| index := 3; pred_ms := Json.float_of_decimal false 1207 (-1);
          steps := VNone |}
     = Ok (lit "3:120,")
  /\ candidate_line unicode_upper
       {| index := 4; pred_ms := Json.float_of_decimal true 1207 (-1);
          steps := VNone |}
     = Ok (lit "4:-120,").
Proof.
  split; [|repeat split; vm_compute; reflexivity].
  intros c sig Hs Hf.
  destruct (int_of_float_truncated _ Hf) as [n [Hn Ht]].
  exists n. split; [exact Ht|].
  unfold candidate_line. rewrite Hs, Hn. reflexivity.
Qed.

Lemma candidate_line_format_witness :
  exists n,
    truncated (pred_ms example_candidate) n
    /\ candidate_line no_unicode_upper example_candidate
       = Ok (str_of_int (index example_candidate) ++ lit ":" ++ str_of_int n
             ++ lit "," ++ lit "LW").
Proof.
  apply (proj1 (candidate_line_format no_unicode_upper) example_candidate
           (lit "LW")).
  - vm_compute. reflexivity.
  - reflexivity.
Defined.

(** C9.  The prompt is a function of the context and of the list of
    candidates.  It is built exactly when the context line and every
    candidate line are, and it is then the context line, the goal line, the
    JSON-only instruction, the [CANDIDATES:] header and the candidate lines
    in the order of the input, each line after the first preceded by one
    newline.  Two requests whose contexts hold the same fields in different
    orders and whose candidates are equal have the same prompt (or the same
    exception). *)
Theorem prompt_layout (unicode_upper : char -> str) :
  (forall (req : RerankIn) (p : str),
      prompt unicode_upper req = Ok p <->
      exists head ls,
        ctx_line (ctx req) = Ok head
        /\ Forall2 (fun c l => candidate_line unicode_upper c = Ok l)
             (candidates req) ls
        /\ p = head ++ NL :: GOAL ++ NL :: JSON_ONLY
               ++ NL :: lit "CANDIDATES:"
               ++ List.concat (map (cons NL) ls))
  /\ (forall req1 req2 : RerankIn,
         NoDup (map fst (ctx req1)) ->
         Permutation (ctx req1) (ctx req2) ->
         candidates req1 = candidates req2 ->
         prompt unicode_upper req1 = prompt unicode_upper req2).
Proof.
  split.
  - intros req p. unfold prompt. split.
    + destruct (ctx_line (ctx req)) as [head|e]; cbn [bind]; [|discriminate].
      rewrite append_candidates_mapM.
      destruct (mapM (candidate_line unicode_upper) (candidates req))
        as [ls|e] eqn:El; cbn [bind]; [|discriminate].
      intros E. apply Ok_inj in E. subst p.
      exists head, ls. split; [reflexivity|].
      split; [now apply mapM_Forall2|].
      change ([head; GOAL; JSON_ONLY; lit "CANDIDATES:"] ++ ls)
        with (head :: GOAL :: JSON_ONLY :: lit "CANDIDATES:" :: ls).
      rewrite join_cons. cbn [map List.concat].
      rewrite <- !app_assoc. reflexivity.
    + intros [head [ls [Eh [Fl ->]]]].
      apply mapM_Forall2 in Fl. rewrite Eh. cbn [bind].
      rewrite append_candidates_mapM, Fl. cbn [bind].
      change ([head; GOAL; JSON_ONLY; lit "CANDIDATES:"] ++ ls)
        with (head :: GOAL :: JSON_ONLY :: lit "CANDIDATES:" :: ls).
      rewrite join_cons. cbn [map List.concat].
      rewrite <- !app_assoc. reflexivity.
  - intros req1 req2 Hn Hp Hc. unfold prompt.
    now rewrite (ctx_line_permutation _ _ Hn Hp), Hc.
Qed.

Lemma prompt_layout_witness :
  prompt no_unicode_upper
    {| ctx := example_ctx; candidates := [example_candidate] |}
  = prompt no_unicode_upper
      {| ctx := example_ctx_reordered; candidates := [example_candidate] |}.
Proof.
  apply (proj2 (prompt_layout no_unicode_upper)).
  - vm_compute. repeat constructor; simpl; intuition discriminate.
  - vm_compute.
    apply Permutation_cons_app with (l1 := [_; _; _; _]) (l2 := []).
    apply Permutation_cons_app with (l1 := [_; _]) (l2 := [_]).
    apply Permutation_cons_app with (l1 := [_]) (l2 := [_]).
    apply Permutation_cons_app with (l1 := [_]) (l2 := []).
    apply Permutation_refl.
  - reflexivity.
Defined.

(** * Further properties *)

(** ** Stripping *)

Lemma lstrip_app_stop (p : char -> bool) (a : str) (c : char) (r : str) :
  Forall (fun x => p x = true) a -> p c = false ->
  lstrip p (a ++ c :: r) = c :: r.
Proof.
  intros Ha Hc. induction Ha as [|x a Hx _ IH]; simpl.
  - now rewrite Hc.
  - now rewrite Hx.
Qed.

Lemma lstrip_all (p : char -> bool) (a : str) :
  Forall (fun x => p x = true) a -> lstrip p a = [].
Proof.
  induction 1 as [|x a Hx _ IH]; simpl; [reflexivity|]. now rewrite Hx.
Qed.

Lemma rstrip_app_stop (p : char -> bool) (s : str) (c : char) (z : str) :
  Forall (fun x => p x = true) z -> p c = false ->
  rstrip p (s ++ c :: z) = s ++ [c].
Proof.
  intros Hz Hc. unfold rstrip.
  rewrite rev_app_distr. simpl rev. rewrite <- app_assoc. simpl app.
  rewrite lstrip_app_stop; [|now apply Forall_rev|exact Hc].
  simpl rev. now rewrite rev_involutive.
Qed.

(** A text that neither starts nor ends with a character of [p], between
    two runs of [p], is what stripping [p] leaves. *)
Lemma strip_unique (p : char -> bool) (a core z : str) :
  Forall (fun x => p x = true) a ->
  Forall (fun x => p x = true) z ->
  (forall c r, core = c :: r -> p c = false) ->
  (forall r c, core = r ++ [c] -> p c = false) ->
  rstrip p (lstrip p (a ++ core ++ z)) = core.
Proof.
  intros Ha Hz Hh Hl.
  destruct core as [|c r].
  - simpl. rewrite lstrip_all; [reflexivity|].
    apply Forall_app. now split.
  - simpl app. rewrite lstrip_app_stop; [|exact Ha|now apply (Hh c r)].
    destruct (exists_last (l := c :: r)) as [r' [d E]]; [discriminate|].
    change (c :: r ++ z) with ((c :: r) ++ z). rewrite E.
    rewrite <- app_assoc. simpl app.
    apply rstrip_app_stop; [exact Hz|]. now apply (Hl r' d).
Qed.

Lemma strip_split (p : char -> bool) (s : str) :
  exists a z,
    s = a ++ rstrip p (lstrip p s) ++ z
    /\ Forall (fun x => p x = true) a
    /\ Forall (fun x => p x = true) z
    /\ (forall c r, rstrip p (lstrip p s) = c :: r -> p c = false)
    /\ (forall r c, rstrip p (lstrip p s) = r ++ [c] -> p c = false).
Proof.
  destruct (lstrip_split p s) as [a [E1 F1]].
  destruct (rstrip_split p (lstrip p s)) as [z [E2 F2]].
  exists a, z. repeat split; trivial.
  - rewrite <- E2. exact E1.
  - intros c r E. destruct (rstrip_head _ _ _ _ E) as [t Et].
    now apply lstrip_head in Et.
  - intros r c E. now apply rstrip_last in E.
Qed.

(** Whitespace around a text does not change what [strip] leaves. *)
Lemma strip_padded (ws1 s ws2 : str) :
  Forall (fun c => isspace c = true) ws1 ->
  Forall (fun c => isspace c = true) ws2 ->
  strip (ws1 ++ s ++ ws2) = strip s.
Proof.
  intros H1 H2. unfold strip.
  destruct (strip_split isspace s) as [a [z [E [Fa [Fz [Hh Hl]]]]]].
  rewrite E at 1.
  replace (ws1 ++ (a ++ rstrip isspace (lstrip isspace s) ++ z) ++ ws2)
    with ((ws1 ++ a) ++ rstrip isspace (lstrip isspace s) ++ (z ++ ws2))
    by (now rewrite <- !app_assoc).
  apply strip_unique; trivial; apply Forall_app; now split.
Qed.

Lemma strip_idempotent (s : str) : strip (strip s) = strip s.
Proof.
  unfold strip.
  destruct (strip_split isspace s) as [a [z [_ [_ [_ [Hh Hl]]]]]].
  pose proof (strip_unique isspace [] _ [] (Forall_nil _) (Forall_nil _) Hh Hl)
    as E.
  simpl app in E. now rewrite List.app_nil_r in E.
Qed.

Lemma clean_padded (ws1 raw ws2 : str) :
  Forall (fun c => isspace c = true) ws1 ->
  Forall (fun c => isspace c = true) ws2 ->
  clean (ws1 ++ raw ++ ws2) = clean raw.
Proof. intros H1 H2. unfold clean. now rewrite strip_padded. Qed.

(** ** Fences *)

Lemma not_backtick_mem (c : char) :
  c <> BACKTICK -> mem c (lit "`") = false.
Proof.
  intros H. unfold mem. simpl. rewrite orb_false_r.
  apply N.eqb_neq. exact H.
Qed.

Lemma last_eq (s r : str) (d c : char) : s ++ [d] = r ++ [c] -> d = c.
Proof. intros E. apply app_inj_tail in E. tauto. Qed.

(** The text between two fences, when it neither starts nor ends with a
    backtick: it is stripped and cut after its first newline. *)
Lemma clean_between_fences (inner : str) :
  (forall c r, inner = c :: r -> c <> BACKTICK) ->
  (forall r c, inner = r ++ [c] -> c <> BACKTICK) ->
  clean (FENCE ++ inner ++ FENCE)
  = match split1 NL (strip inner) with
    | Some (_, rest) => strip rest
    | None => strip inner
    end.
Proof.
  intros Hh Hl.
  assert (Es : strip (FENCE ++ inner ++ FENCE) = FENCE ++ inner ++ FENCE).
  { unfold strip.
    pose proof (strip_unique isspace [] (FENCE ++ inner ++ FENCE) []
                  (Forall_nil _) (Forall_nil _)) as E.
    simpl app in E. rewrite List.app_nil_r in E. apply E.
    - intros c r X. injection X as <- _. reflexivity.
    - intros r c X.
      assert (Y : (FENCE ++ inner ++ [BACKTICK; BACKTICK]) ++ [BACKTICK]
                  = r ++ [c]).
      { rewrite <- X. rewrite <- !app_assoc. reflexivity. }
      apply last_eq in Y. now subst c. }
  assert (Eb : strip_chars (lit "`") (FENCE ++ inner ++ FENCE) = inner).
  { unfold strip_chars. apply strip_unique.
    - repeat constructor.
    - repeat constructor.
    - intros c r X. apply not_backtick_mem. now apply (Hh c r).
    - intros r c X. apply not_backtick_mem. now apply (Hl r c). }
  unfold clean. rewrite Es, Eb. reflexivity.
Qed.

Lemma forallb_not_in (p : char -> bool) (c : char) (t : str) :
  forallb (fun x => negb (p x)) t = true -> p c = true -> ~ In c t.
Proof.
  intros F Hc Hin. rewrite forallb_forall in F.
  specialize (F c Hin). rewrite Hc in F. discriminate.
Qed.

Lemma clean_fenced_tag (tag body : str) :
  language_tag tag = true ->
  strip body <> [] ->
  clean (fenced tag body) = strip body.
Proof.
  intros Ht Hb.
  destruct tag as [|t0 tag']; [discriminate|].
  unfold language_tag in Ht. apply andb_true_iff in Ht.
  destruct Ht as [Hbt Hsp].
  apply negb_true_iff, N.eqb_neq in Hbt.
  assert (Hnl : ~ In NL (t0 :: tag')).
  { apply (forallb_not_in isspace); [exact Hsp | reflexivity]. }
  assert (Ht0 : isspace t0 = false).
  { simpl in Hsp. apply andb_true_iff in Hsp.
    now apply negb_true_iff. }
  assert (E0 : fenced (t0 :: tag') body
               = FENCE ++ ((t0 :: tag') ++ NL :: body ++ [NL]) ++ FENCE).
  { unfold fenced. rewrite <- !app_assoc. cbn [app].
    rewrite <- !app_assoc. reflexivity. }
  rewrite E0, clean_between_fences.
  - destruct (strip_split isspace body) as [a [z [E [Fa [Fz [Hh Hl]]]]]].
    fold (strip body) in E, Hh, Hl.
    assert (Ei : strip ((t0 :: tag') ++ NL :: body ++ [NL])
                 = (t0 :: tag') ++ NL :: a ++ strip body).
    { rewrite E at 1. unfold strip at 1.
      pose proof (strip_unique isspace []
                    ((t0 :: tag') ++ NL :: a ++ strip body) (z ++ [NL])) as U.
      simpl app in U. simpl app.
      replace (tag' ++ NL :: (a ++ strip body ++ z) ++ [NL])
        with ((tag' ++ NL :: a ++ strip body) ++ z ++ [NL])
        by (rewrite <- !app_assoc; simpl; now rewrite <- !app_assoc).
      apply U.
      - constructor.
      - apply Forall_app. split; [exact Fz | repeat constructor].
      - intros c r X. injection X as <- _. exact Ht0.
      - intros r c X.
        destruct (exists_last Hb) as [r' [d Ed]].
        assert (Y : ((t0 :: tag') ++ NL :: a ++ r') ++ [d] = r ++ [c]).
        { rewrite <- X, Ed. rewrite <- !app_assoc. simpl.
          now rewrite <- !app_assoc. }
        apply last_eq in Y. subst c. now apply (Hl r' d). }
    rewrite Ei, (split1_first NL _ _ Hnl).
    unfold strip at 1.
    pose proof (strip_unique isspace a (strip body) [] Fa (Forall_nil _) Hh Hl)
      as U.
    now rewrite List.app_nil_r in U.
  - intros c r X. injection X as <- _. exact Hbt.
  - intros r c X.
    assert (Y : ((t0 :: tag') ++ NL :: body) ++ [NL] = r ++ [c]).
    { rewrite <- X. rewrite <- !app_assoc. reflexivity. }
    apply last_eq in Y. subst c. discriminate.
Qed.

Lemma clean_fenced_untagged (body : str) :
  clean (fenced [] body)
  = match split1 NL (strip body) with
    | Some (_, rest) => strip rest
    | None => strip body
    end.
Proof.
  assert (E : fenced [] body = FENCE ++ ([NL] ++ body ++ [NL]) ++ FENCE).
  { unfold fenced. rewrite <- !app_assoc. reflexivity. }
  rewrite E, clean_between_fences.
  - rewrite strip_padded; [reflexivity| |]; repeat constructor.
  - intros c r X. injection X as <- _. discriminate.
  - intros r c X.
    assert (Y : ([NL] ++ body) ++ [NL] = r ++ [c]).
    { rewrite <- X. rewrite <- !app_assoc. reflexivity. }
    apply last_eq in Y. subst c. discriminate.
Qed.

(** ** Integers written and read *)

Lemma fold_digits_acc (u : Decimal.uint) (a : positive) :
  fold_left (fun acc c => 10 * acc + (Z.of_N c - 48)) (uint_digits u) (Zpos a)
  = Zpos (Pos.of_uint_acc u a).
Proof.
  revert a. induction u; intros a; cbn [uint_digits fold_left Pos.of_uint_acc];
    [reflexivity | ..];
    match goal with
    | |- fold_left _ _ ?z = _ =>
        match goal with
        | |- _ = Zpos (Pos.of_uint_acc _ ?b) =>
            replace z with (Zpos b) by (vm_compute ch; lia)
        end
    end; apply IHu.
Qed.

(** The decimal writing of a positive number does not begin with a zero. *)
Lemma to_uint_head (p : positive) :
  match Pos.to_uint p with
  | Decimal.Nil | Decimal.D0 _ => False
  | _ => True
  end.
Proof.
  pose proof (DecimalPos.Unsigned.to_of (Pos.to_uint p)) as E.
  rewrite DecimalPos.Unsigned.of_to in E. cbn [N.to_uint] in E.
  pose proof (DecimalPos.Unsigned.to_uint_nonnil p) as Hn.
  pose proof (DecimalPos.Unsigned.to_uint_nonzero p) as Hz.
  destruct (Pos.to_uint p) as [|u| | | | | | | | | ] eqn:Eu; trivial.
  - now apply Hn.
  - rewrite DecimalFacts.unorm_D0 in E.
    destruct u as [|u'| | | | | | | | | ] eqn:Eu';
      try (pose proof (DecimalFacts.nb_digits_unorm u) as Hl; subst u;
           rewrite <- E in Hl; simpl in Hl;
           specialize (Hl ltac:(discriminate)); lia).
    apply Hz. reflexivity.
Qed.

Lemma nat_of_digits_to_uint (p : positive) :
  Json.nat_of_digits (uint_digits (Pos.to_uint p)) = Zpos p.
Proof.
  pose proof (to_uint_head p) as Hh.
  pose proof (DecimalPos.Unsigned.of_to p) as E.
  apply (f_equal Z.of_N) in E. cbn [Z.of_N] in E. rewrite <- E.
  unfold Json.nat_of_digits.
  destruct (Pos.to_uint p); try contradiction;
    cbn [uint_digits fold_left Pos.of_uint Z.of_N];
    rewrite <- fold_digits_acc; reflexivity.
Qed.

Lemma uint_digits_digits (u : Decimal.uint) :
  Forall (fun c => Json.is_digit c = true) (uint_digits u).
Proof. induction u; simpl; constructor; trivial. Qed.

Lemma span_digits_app (ds : str) (c : char) (r : str) :
  Forall (fun x => Json.is_digit x = true) ds ->
  Json.is_digit c = false ->
  Json.span_digits (ds ++ c :: r) = (ds, c :: r).
Proof.
  intros F Hc. induction F as [|x ds Hx _ IH]; simpl.
  - now rewrite Hc.
  - now rewrite Hx, IH.
Qed.

(** [str(n)] begins with a minus sign or a digit, and what follows the
    sign begins with a digit other than zero. *)
Lemma str_of_int_head (n : Z) :
  exists x t,
    str_of_int n = x :: t
    /\ (x = ch "-" \/ Json.is_digit x = true).
Proof.
  destruct n as [|p|p]; simpl.
  - exists (ch "0"), []. split; [reflexivity | now right].
  - pose proof (uint_digits_digits (Pos.to_uint p)) as F.
    pose proof (to_uint_head p) as Hh.
    destruct (Pos.to_uint p); try contradiction; simpl in *;
      inversion F; subst; eexists _, _; (split; [reflexivity | now right]).
  - eexists _, _. split; [reflexivity | now left].
Qed.

Ltac char_neq :=
  unfold Json.is_ws, Json.is_digit in *;
  unfold is_ch, is_quote, QUOTE, ch in *;
  simpl N_of_ascii in *;
  repeat match goal with
         | H : (_ || _)%bool = true |- _ => apply orb_true_iff in H; destruct H
         | H : (_ && _)%bool = true |- _ => apply andb_true_iff in H; destruct H
         | H : N.eqb _ _ = true |- _ => apply N.eqb_eq in H
         | H : N.leb _ _ = true |- _ => apply N.leb_le in H
         | H : _ \/ _ |- _ => destruct H
         end;
  subst;
  try reflexivity;
  repeat match goal with
         | |- (_ || _)%bool = false => apply orb_false_iff; split
         end;
  try (apply N.eqb_neq; lia).

Lemma digits_match_integer (neg : bool) (d0 : char) (ds : str)
      (c : char) (r : str) :
  Json.is_digit d0 = true -> d0 <> ch "0" ->
  Forall (fun x => Json.is_digit x = true) ds ->
  Json.is_digit c = false ->
  Json.match_integer ((if neg then [ch "-"] else []) ++ d0 :: ds ++ c :: r)
  = Some (neg, d0 :: ds, c :: r).
Proof.
  intros H0 Hz F Hc.
  assert (E1 : is_ch "-" d0 = false) by char_neq.
  assert (E2 : is_ch "0" d0 = false).
  { unfold is_ch. apply N.eqb_neq. exact Hz. }
  unfold Json.match_integer.
  destruct neg; simpl app.
  - cbv beta iota. change (is_ch "-" 45%N) with true. cbv beta iota.
    now rewrite E2, H0, span_digits_app.
  - cbv beta iota. rewrite E1. cbv beta iota.
    now rewrite E2, H0, span_digits_app.
Qed.

Lemma int_of_text_limit (neg : bool) (ds : str) :
  Json.int_of_text neg ds
  = if Nat.leb (List.length ds) Json.INT_MAX_STR_DIGITS
    then Ok (if neg then - Json.nat_of_digits ds else Json.nat_of_digits ds)
    else Raise ValueError.
Proof.
  unfold Json.int_of_text. rewrite Nat.ltb_antisym.
  now destruct (Nat.leb (List.length ds) Json.INT_MAX_STR_DIGITS).
Qed.

(** The decoder's integer for a written [n]: [n] itself, or [ValueError]
    when it has too many digits. *)
Lemma match_number_int (n : Z) (c : char) (r : str) :
  (is_ch "," c || is_ch "]" c) = true ->
  Json.match_number (str_of_int n ++ c :: r)
  = Some (if within_digit_limit n then Ok (VInt n) else Raise ValueError,
          c :: r).
Proof.
  intros Hd.
  assert (Hc : Json.is_digit c = false) by char_neq.
  assert (Hp : is_ch "." c = false) by char_neq.
  assert (He : (is_ch "e" c || is_ch "E" c) = false) by char_neq.
  assert (Hrest : forall neg ints,
             Json.match_integer (str_of_int n ++ c :: r)
             = Some (neg, ints, c :: r) ->
             Json.match_number (str_of_int n ++ c :: r)
             = Some (bind (Json.int_of_text neg ints) (fun k => Ok (VInt k)),
                     c :: r)).
  { intros neg ints E. unfold Json.match_number. rewrite E.
    unfold Json.match_frac, Json.match_exp. now rewrite Hp, He. }
  unfold within_digit_limit.
  destruct n as [|p|p].
  - apply (Hrest false [ch "0"]). reflexivity.
  - pose proof (uint_digits_digits (Pos.to_uint p)) as F.
    pose proof (to_uint_head p) as Hh.
    pose proof (nat_of_digits_to_uint p) as Ev.
    cbn [str_of_int Z.abs] in *.
    destruct (uint_digits (Pos.to_uint p)) as [|d0 ds] eqn:Ed.
    { destruct (Pos.to_uint p); try contradiction; discriminate. }
    assert (Hz : d0 <> ch "0").
    { destruct (Pos.to_uint p); try contradiction;
        simpl in Ed; injection Ed as <- _; discriminate. }
    inversion F as [|? ? H0 Fds]; subst.
    rewrite (Hrest false (d0 :: ds)).
    + rewrite int_of_text_limit, Ev.
      now destruct (Nat.leb (List.length (d0 :: ds)) Json.INT_MAX_STR_DIGITS).
    + exact (digits_match_integer false d0 ds c r H0 Hz Fds Hc).
  - pose proof (uint_digits_digits (Pos.to_uint p)) as F.
    pose proof (to_uint_head p) as Hh.
    pose proof (nat_of_digits_to_uint p) as Ev.
    cbn [str_of_int Z.abs] in *.
    destruct (uint_digits (Pos.to_uint p)) as [|d0 ds] eqn:Ed.
    { destruct (Pos.to_uint p); try contradiction; discriminate. }
    assert (Hz : d0 <> ch "0").
    { destruct (Pos.to_uint p); try contradiction;
        simpl in Ed; injection Ed as <- _; discriminate. }
    inversion F as [|? ? H0 Fds]; subst.
    rewrite (Hrest true (d0 :: ds)).
    + rewrite int_of_text_limit, Ev.
      now destruct (Nat.leb (List.length (d0 :: ds)) Json.INT_MAX_STR_DIGITS).
    + exact (digits_match_integer true d0 ds c r H0 Hz Fds Hc).
Qed.

Lemma number_head_not_ws (x : char) :
  x = ch "-" \/ Json.is_digit x = true -> Json.is_ws x = false.
Proof. intros Hx. char_neq. Qed.

Lemma startswith_head_neq (a : char) (p : str) (x : char) (s : str) :
  N.eqb a x = false -> startswith (a :: p) (x :: s) = false.
Proof. intros H. simpl. now rewrite H. Qed.

Lemma scan_once_int (fuel : nat) (n : Z) (c : char) (r : str) :
  (is_ch "," c || is_ch "]" c) = true ->
  Json.scan_once (S fuel) (str_of_int n ++ c :: r)
  = if within_digit_limit n then Ok (VInt n, c :: r) else Raise ValueError.
Proof.
  intros Hd.
  pose proof (match_number_int n c r Hd) as Em.
  destruct (str_of_int_head n) as [x [t [Ex Hx]]].
  rewrite Ex in *. simpl app in *.
  cbn [Json.scan_once].
  assert (E1 : is_quote x = false) by (clear Em Hd; char_neq).
  assert (E2 : is_ch "{" x = false) by (clear Em Hd; char_neq).
  assert (E3 : is_ch "[" x = false) by (clear Em Hd; char_neq).
  rewrite E1, E2, E3.
  assert (N1 : startswith (lit "null") (x :: t ++ c :: r) = false).
  { apply (startswith_head_neq (ch "n") (lit "ull")). clear Em Hd. char_neq. }
  assert (N2 : startswith (lit "true") (x :: t ++ c :: r) = false).
  { apply (startswith_head_neq (ch "t") (lit "rue")). clear Em Hd. char_neq. }
  assert (N3 : startswith (lit "false") (x :: t ++ c :: r) = false).
  { apply (startswith_head_neq (ch "f") (lit "alse")). clear Em Hd. char_neq. }
  rewrite N1, N2, N3, Em.
  now destruct (within_digit_limit n).
Qed.

Lemma skip_ws_stop (ws : str) (x : char) (t : str) :
  Forall (fun c => Json.is_ws c = true) ws -> Json.is_ws x = false ->
  Json.skip_ws (ws ++ x :: t) = x :: t.
Proof. intros. now apply lstrip_app_stop. Qed.

Lemma array_items_step (fuel : nat) (s : str) (values : list value) :
  Json.array_items (S fuel) s values
  = bind (Json.scan_once fuel s)
      (fun x => let '(v, s1) := x in
         match Json.skip_ws s1 with
         | c :: r =>
             if is_ch "]" c then Ok (VList (values ++ [v]), r)
             else if is_ch "," c then
               Json.array_items fuel (Json.skip_ws r) (values ++ [v])
             else Raise JSONDecodeError
         | [] => Raise JSONDecodeError
         end).
Proof. reflexivity. Qed.

Lemma join_two (sep x y : str) (r : list str) :
  join sep (x :: y :: r) = x ++ sep ++ join sep (y :: r).
Proof. reflexivity. Qed.

Lemma join_ints_head (sep : str) (m : Z) (l : list Z) (tail : str) :
  exists x t,
    join sep (map str_of_int (m :: l)) ++ tail = x :: t
    /\ Json.is_ws x = false /\ is_ch "]" x = false.
Proof.
  destruct (str_of_int_head m) as [x [t [Ex Hx]]].
  assert (H1 : Json.is_ws x = false) by now apply number_head_not_ws.
  assert (H2 : is_ch "]" x = false) by (clear H1; char_neq).
  destruct l as [|k l'].
  - cbn [map join]. rewrite Ex. eexists _, _. split; [reflexivity|].
    now split.
  - cbn [map]. rewrite join_two, Ex. eexists _, _.
    split; [reflexivity|]. now split.
Qed.

Lemma array_items_ints (ws : str) (l : list Z) :
  Forall (fun c => Json.is_ws c = true) ws ->
  l <> [] ->
  forall (fuel : nat) (acc : list value) (tail : str),
    (List.length l < fuel)%nat ->
    Json.array_items fuel
      (join (lit "," ++ ws) (map str_of_int l) ++ ch "]" :: tail) acc
    = if forallb within_digit_limit l
      then Ok (VList (acc ++ map VInt l), tail)
      else Raise ValueError.
Proof.
  intros Hws. induction l as [|n l IH]; [congruence|]. intros _.
  intros fuel acc tail Hf.
  destruct fuel as [|fuel]; [simpl in Hf; lia|].
  destruct fuel as [|fuel']; [simpl in Hf; lia|].
  rewrite array_items_step.
  destruct l as [|m l'].
  - cbn [map join forallb].
    rewrite scan_once_int by reflexivity.
    destruct (within_digit_limit n); reflexivity.
  - cbn [map]. rewrite join_two. rewrite <- !app_assoc.
    change (lit "," ++ ws ++ join (lit "," ++ ws) (str_of_int m :: map str_of_int l')
            ++ ch "]" :: tail)
      with (ch "," :: ws ++ join (lit "," ++ ws) (map str_of_int (m :: l'))
            ++ ch "]" :: tail).
    rewrite scan_once_int by reflexivity.
    change (forallb within_digit_limit (n :: m :: l'))
      with (within_digit_limit n && forallb within_digit_limit (m :: l')).
    destruct (within_digit_limit n); [|reflexivity].
    cbn [bind andb].
    destruct (join_ints_head (lit "," ++ ws) m l' (ch "]" :: tail))
      as [x [t [Es [Hx _]]]].
    change (Json.skip_ws (ch "," :: ws
              ++ join (lit "," ++ ws) (map str_of_int (m :: l'))
              ++ ch "]" :: tail))
      with (ch "," :: ws
              ++ join (lit "," ++ ws) (map str_of_int (m :: l'))
              ++ ch "]" :: tail).
    cbv beta iota.
    change (is_ch "]" (ch ",")) with false.
    change (is_ch "," (ch ",")) with true. cbv iota.
    rewrite Es, (skip_ws_stop ws x t Hws Hx), <- Es.
    rewrite IH; [|discriminate|simpl in *; lia].
    destruct (forallb within_digit_limit (m :: l')); [|reflexivity].
    rewrite <- app_assoc. reflexivity.
Qed.

Lemma str_of_int_length (n : Z) : (1 <= List.length (str_of_int n))%nat.
Proof.
  destruct (str_of_int_head n) as [x [t [E _]]]. rewrite E. simpl. lia.
Qed.

Lemma join_ints_length (sep : str) (l : list Z) :
  (List.length l <= List.length (join sep (map str_of_int l)))%nat.
Proof.
  induction l as [|n [|m r] IH].
  - simpl. lia.
  - cbn [map join List.length]. pose proof (str_of_int_length n). lia.
  - cbn [map] in *. rewrite join_two, !length_app.
    pose proof (str_of_int_length n). cbn [List.length] in *. lia.
Qed.

Lemma scan_once_bracket (fuel : nat) (r : str) :
  Json.scan_once (S fuel) (ch "[" :: r)
  = match Json.skip_ws r with
    | d :: r' =>
        if is_ch "]" d then Ok (VList [], r')
        else Json.array_items fuel (d :: r') []
    | [] => Json.array_items fuel [] []
    end.
Proof. reflexivity. Qed.

(** The decoder reads back a written list of integers. *)
Lemma loads_render_ints (ws : str) (l : list Z) :
  Forall (fun c => Json.is_ws c = true) ws ->
  forallb within_digit_limit l = true ->
  Json.loads (render_ints ws l) = Ok (VList (map VInt l)).
Proof.
  intros Hws Hlim. unfold Json.loads, render_ints.
  change (lit "[" ++ join (lit "," ++ ws) (map str_of_int l) ++ lit "]")
    with (ch "[" :: join (lit "," ++ ws) (map str_of_int l) ++ [ch "]"]).
  change (startswith [65279%N]
            (ch "[" :: join (lit "," ++ ws) (map str_of_int l) ++ [ch "]"]))
    with false. cbv iota.
  unfold Json.decode.
  change (Json.skip_ws
            (ch "[" :: join (lit "," ++ ws) (map str_of_int l) ++ [ch "]"]))
    with (ch "[" :: join (lit "," ++ ws) (map str_of_int l) ++ [ch "]"]).
  replace (2 * List.length
                 (ch "[" :: join (lit "," ++ ws) (map str_of_int l)
                         ++ [ch "]"]) + 2)%nat
    with (S (2 * List.length
                   (ch "[" :: join (lit "," ++ ws) (map str_of_int l)
                           ++ [ch "]"]) + 1))%nat by lia.
  rewrite scan_once_bracket.
  destruct l as [|m l'].
  - reflexivity.
  - destruct (join_ints_head (lit "," ++ ws) m l' [ch "]"])
      as [x [t [Es [Hx Hb]]]].
    rewrite Es. change (Json.skip_ws (x :: t)) with (lstrip Json.is_ws (x :: t)).
    cbn [lstrip]. rewrite Hx, Hb, <- Es.
    rewrite (array_items_ints ws (m :: l') Hws); [|discriminate|].
    + now rewrite Hlim.
    + pose proof (join_ints_length (lit "," ++ ws) (m :: l')) as Hl.
      cbn [List.length] in *. rewrite length_app. lia.
Qed.

Lemma strip_render_ints (ws : str) (l : list Z) :
  strip (render_ints ws l) = render_ints ws l.
Proof.
  unfold strip.
  pose proof (strip_unique isspace [] (render_ints ws l) []
                (Forall_nil _) (Forall_nil _)) as U.
  simpl app in U. rewrite List.app_nil_r in U. apply U.
  - intros c r X. unfold render_ints in X. injection X as <- _. reflexivity.
  - intros r c X.
    assert (Y : (lit "[" ++ join (lit "," ++ ws) (map str_of_int l))
                ++ [ch "]"] = r ++ [c]).
    { rewrite <- X. unfold render_ints. now rewrite <- app_assoc. }
    apply last_eq in Y. now subst c.
Qed.

Lemma validate_render_ints (ws : str) (l : list Z) :
  Forall (fun c => Json.is_ws c = true) ws ->
  forallb within_digit_limit l = true ->
  validate (render_ints ws l) = Ok (VList (map VInt l)).
Proof.
  intros Hws Hlim. apply validate_accepts.
  - unfold clean. rewrite strip_render_ints.
    change (startswith FENCE (render_ints ws l)) with false.
    now apply loads_render_ints.
  - apply forallb_forall. intros x Hx. apply in_map_iff in Hx.
    destruct Hx as [n [<- _]]. reflexivity.
Qed.

(** ** When the prompt is built *)

Lemma float_of_bool_ok (b : bool) :
  exists x, float_of_int (int_of_bool b) = Ok x.
Proof. destruct b; eexists; vm_compute; reflexivity. Qed.

Lemma format_f_ok (d : nat) (v : value) :
  (exists s, format_f d v = Ok s) <-> formattable v = true.
Proof.
  destruct v as [|b|n|x|s|l|dd]; cbn [format_f formattable];
    try (split; [intros [s0 E]; discriminate | discriminate]).
  - split; [reflexivity|]. intros _.
    destruct (float_of_bool_ok b) as [x E]. rewrite E.
    eexists. reflexivity.
  - destruct (float_of_int n) as [x|e]; cbn [bind].
    + split; [reflexivity | intros _; eexists; reflexivity].
    + split; [intros [s E]; discriminate | discriminate].
  - split; [reflexivity | intros _; eexists; reflexivity].
Qed.

Lemma ctx_line_ok (c : list (str * value)) :
  (exists s, ctx_line c = Ok s)
  <-> formattable (get c (lit "size")) = true
      /\ formattable (get c (lit "clutter")) = true.
Proof.
  unfold ctx_line.
  rewrite <- (format_f_ok 1), <- (format_f_ok 2).
  destruct (format_f 1 (get c (lit "size"))) as [s1|e1]; cbn [bind].
  - destruct (format_f 2 (get c (lit "clutter"))) as [s2|e2]; cbn [bind].
    + split; [intros _; split; eexists; reflexivity
             | intros _; eexists; reflexivity].
    + split; [intros [s E]; discriminate | intros [_ [s E]]; discriminate].
  - split; [intros [s E]; discriminate | intros [[s E] _]; discriminate].
Qed.

Lemma int_of_float_ok (x : spec_float) :
  (exists n, int_of_float x = Ok n) <-> is_finite x = true.
Proof.
  destruct x; simpl; split; try discriminate; try reflexivity;
    try (intros [n E]; discriminate); intros _; eexists; reflexivity.
Qed.

Lemma mapM_ok {A B} (f : A -> result B) (p : A -> bool) (l : list A) :
  (forall x, (exists y, f x = Ok y) <-> p x = true) ->
  (exists ys, mapM f l = Ok ys) <-> forallb p l = true.
Proof.
  intros Hf. induction l as [|x r IH]; simpl.
  - split; [reflexivity | intros _; eexists; reflexivity].
  - rewrite andb_true_iff, <- IH, <- Hf.
    destruct (f x) as [y|e]; cbn [bind].
    + destruct (mapM f r) as [ys|e]; cbn [bind].
      * split; [intros _; split; eexists; reflexivity
               | intros _; eexists; reflexivity].
      * split; [intros [s E]; discriminate | intros [_ [s E]]; discriminate].
    + split; [intros [s E]; discriminate | intros [[s E] _]; discriminate].
Qed.

Section EncodingSucceeds.

Variable unicode_upper : char -> str.

Lemma token_code_ok (v : value) :
  (exists s, token_code unicode_upper v = Ok s) <-> is_text v = true.
Proof.
  destruct v; simpl; split; try discriminate; try reflexivity;
    try (intros [s0 E]; discriminate); intros _; eexists; reflexivity.
Qed.

Lemma signature_ok (st : value) :
  (exists s, signature unicode_upper st = Ok s)
  <-> forallb is_text (first_tokens st) = true.
Proof.
  destruct st as [| | | | |l|];
    try (simpl; split; [reflexivity | intros _; eexists; reflexivity]).
  unfold signature, first_tokens. rewrite flatten_steps_flat_map.
  rewrite <- (mapM_ok (token_code unicode_upper) is_text _ token_code_ok).
  destruct (mapM (token_code unicode_upper)
              (firstn 8 (flat_map stage_tokens l))) as [codes|e]; cbn [bind].
  - split; intros _; eexists; reflexivity.
  - split; intros [s E]; discriminate.
Qed.

Lemma candidate_line_ok (c : Candidate) :
  (exists s, candidate_line unicode_upper c = Ok s) <-> encodable c = true.
Proof.
  unfold candidate_line, encodable.
  rewrite andb_true_iff, <- signature_ok, <- int_of_float_ok.
  destruct (signature unicode_upper (steps c)) as [sig|e]; cbn [bind].
  - destruct (int_of_float (pred_ms c)) as [n|e]; cbn [bind].
    + split; [intros _; split; eexists; reflexivity
             | intros _; eexists; reflexivity].
    + split; [intros [s E]; discriminate | intros [_ [s E]]; discriminate].
  - split; [intros [s E]; discriminate | intros [[s E] _]; discriminate].
Qed.

Lemma prompt_ok (req : RerankIn) :
  (exists p, prompt unicode_upper req = Ok p)
  <-> formattable (get (ctx req) (lit "size")) = true
      /\ formattable (get (ctx req) (lit "clutter")) = true
      /\ forallb encodable (candidates req) = true.
Proof.
  unfold prompt.
  rewrite <- (mapM_ok (candidate_line unicode_upper) encodable _
                candidate_line_ok).
  pose proof (ctx_line_ok (ctx req)) as Hc.
  destruct (ctx_line (ctx req)) as [head|e]; cbn [bind].
  - rewrite append_candidates_mapM.
    destruct (mapM (candidate_line unicode_upper) (candidates req))
      as [ls|e]; cbn [bind].
    + split.
      * intros _. destruct Hc as [Hc _].
        destruct (Hc (ex_intro _ head eq_refl)) as [H1 H2].
        repeat split; trivial. eexists; reflexivity.
      * intros _. eexists; reflexivity.
    + split; [intros [s E]; discriminate
             | intros [_ [_ [s E]]]; discriminate].
  - split; [intros [s E]; discriminate|].
    intros [H1 [H2 _]]. destruct Hc as [_ Hc].
    destruct (Hc (conj H1 H2)) as [s E]. discriminate.
Qed.

End EncodingSucceeds.

(** ** What the handler returns *)

Lemma check_ok_shape (out v : value) :
  check out = Ok v ->
  exists l, v = VList l /\ out = VList l /\ forallb isinstance_int l = true.
Proof.
  destruct out as [| | | | |l|]; simpl; try discriminate.
  destruct (forallb isinstance_int l) eqn:E; [|discriminate].
  intros X. injection X as <-. now exists l.
Qed.

Lemma validate_ok_shape (raw : str) (v : value) :
  validate raw = Ok v ->
  exists l, v = VList l /\ Json.loads (clean raw) = Ok (VList l)
            /\ forallb isinstance_int l = true.
Proof.
  unfold validate.
  destruct (Json.loads (clean raw)) as [out|e]; cbn [bind]; [|discriminate].
  intros H. destruct (check_ok_shape _ _ H) as [l [-> [-> F]]].
  now exists l.
Qed.

(** ** Signatures are short *)

Lemma plain_tokens_texts (toks : list value) :
  forallb plain_token toks = true ->
  exists strs,
    toks = map VStr strs
    /\ Forall (fun t => t = [] \/ ascii_initial t = true) strs.
Proof.
  induction toks as [|v r IH]; simpl.
  - intros _. exists []. split; [reflexivity | constructor].
  - rewrite andb_true_iff. intros [Hv Hr].
    destruct (IH Hr) as [strs [-> F]].
    destruct v as [| | | |t| |]; try discriminate.
    exists (t :: strs). split; [reflexivity|].
    constructor; [|exact F].
    destruct t as [|c t']; [now left | now right].
Qed.

Lemma length_concat_short (l : list str) :
  Forall (fun x => (List.length x <= 1)%nat) l ->
  (List.length (List.concat l) <= List.length l)%nat.
Proof.
  induction 1 as [|x r Hx _ IH]; simpl; [lia|].
  rewrite length_app. lia.
Qed.

(** ** Prose *)

Lemma is_ws_isspace (c : char) : Json.is_ws c = true -> isspace c = true.
Proof.
  unfold Json.is_ws, is_ch, ch. simpl N_of_ascii. intros H.
  repeat (apply orb_true_iff in H; destruct H as [H|H]);
    apply N.eqb_eq in H; subst; reflexivity.
Qed.

Lemma strip_head (s : str) (c : char) (r : str) :
  strip s = c :: r -> isspace c = false.
Proof.
  intros E. destruct (strip_split isspace s) as [a [z [_ [_ [_ [Hh _]]]]]].
  now apply (Hh c r).
Qed.

Lemma match_number_none (c : char) (r : str) :
  is_ch "-" c = false -> Json.is_digit c = false ->
  Json.match_number (c :: r) = None.
Proof.
  intros H1 H2. unfold Json.match_number, Json.match_integer.
  rewrite H1.
  assert (H0 : is_ch "0" c = false).
  { unfold is_ch, Json.is_digit, ch in *. simpl N_of_ascii in *.
    destruct (N.eqb_spec c 48) as [->|]; [discriminate | reflexivity]. }
  now rewrite H0, H2.
Qed.

Lemma startswith_head (a : ascii) (p : string) (c : char) (r : str) :
  is_ch a c = false -> startswith (lit (String a p)) (c :: r) = false.
Proof.
  intros H. change (lit (String a p)) with (ch a :: lit p).
  apply startswith_head_neq. unfold is_ch in H.
  now rewrite N.eqb_sym.
Qed.

Lemma scan_once_no_value (fuel : nat) (c : char) (r : str) :
  value_start c = false ->
  Json.scan_once (S fuel) (c :: r) = Raise JSONDecodeError.
Proof.
  unfold value_start. intros H.
  repeat (apply orb_false_iff in H; destruct H as [H ?]).
  cbn [Json.scan_once].
  repeat match goal with
         | E : ?t = false |- context [if ?t then _ else _] => rewrite E
         end.
  rewrite !startswith_head by assumption.
  now rewrite match_number_none by assumption.
Qed.

Lemma loads_no_value (c : char) (r : str) :
  isspace c = false -> value_start c = false ->
  Json.loads (c :: r) = Raise JSONDecodeError.
Proof.
  intros Hs Hv. unfold Json.loads.
  destruct (startswith [65279%N] (c :: r)); [reflexivity|].
  unfold Json.decode.
  assert (Hw : Json.is_ws c = false).
  { destruct (Json.is_ws c) eqn:E; [|reflexivity].
    apply is_ws_isspace in E. congruence. }
  unfold Json.skip_ws. cbn [lstrip]. rewrite Hw.
  replace (2 * List.length (c :: r) + 2)%nat
    with (S (2 * List.length (c :: r) + 1))%nat by lia.
  now rewrite scan_once_no_value.
Qed.

(** ** Further properties of the handler *)

(** X1.  The request is answered exactly when the context holds, under
    [size] and under [clutter], a float, a boolean or an integer that
    [float] converts without [OverflowError], and every candidate has a
    finite [pred_ms] and only texts among its first 8 flattened tokens;
    otherwise an exception leaves the handler, whatever the process would
    answer. *)
Theorem request_answered_iff
    (unicode_upper : char -> str)
    (subprocess_run : list str -> str -> Z -> result CompletedProcess)
    (req : RerankIn) :
  (exists body, rerank unicode_upper subprocess_run req = Ok body)
  <-> formattable (get (ctx req) (lit "size")) = true
      /\ formattable (get (ctx req) (lit "clutter")) = true
      /\ forallb encodable (candidates req) = true.
Proof.
  rewrite <- (prompt_ok unicode_upper). unfold rerank.
  destruct (prompt unicode_upper req) as [p|e]; cbn [bind].
  - split; intros _; eexists; reflexivity.
  - split; intros [s E]; discriminate.
Qed.

Lemma request_answered_iff_witness :
  exists body,
    rerank no_unicode_upper (raises TimeoutExpired) example_request = Ok body.
Proof.
  apply (proj2 (request_answered_iff no_unicode_upper (raises TimeoutExpired)
                  example_request)).
  split; [|split]; vm_compute; reflexivity.
Defined.

(** X2.  Whatever the process does, a body the handler returns is a list
    whose elements are all integers (booleans included): no float, text,
    [null] or nested value is ever passed to the client. *)
Theorem response_is_integer_list
    (unicode_upper : char -> str)
    (subprocess_run : list str -> str -> Z -> result CompletedProcess)
    (req : RerankIn) (body : value) :
  rerank unicode_upper subprocess_run req = Ok body ->
  exists l, body = VList l /\ forallb isinstance_int l = true.
Proof.
  unfold rerank.
  destruct (prompt unicode_upper req) as [p|e]; cbn [bind]; [|discriminate].
  intros E. apply Ok_inj in E. subst body.
  destruct (invoke subprocess_run p) as [out|e] eqn:Ei.
  - unfold invoke in Ei.
    destruct (subprocess_run [lit "ollama"; lit "run"; MODEL] p 15)
      as [proc|e]; cbn [bind] in Ei; [|discriminate].
    destruct (validate_ok_shape _ _ Ei) as [l [-> [_ F]]]. now exists l.
  - exists []. split; reflexivity.
Qed.

Lemma response_is_integer_list_witness :
  exists l,
    VList [VInt 2; VBool true] = VList l /\ forallb isinstance_int l = true.
Proof.
  apply (response_is_integer_list no_unicode_upper
           (exits 0 (lit "[2, true]")) example_request).
  vm_compute. reflexivity.
Defined.

(** X3.  A ranking that is not empty comes from the process: when the
    handler returns a non-empty list, the call returned a completed process
    and the list is what its output, cleaned, parses to. *)
Theorem nonempty_response_provenance
    (unicode_upper : char -> str)
    (subprocess_run : list str -> str -> Z -> result CompletedProcess)
    (req : RerankIn) (x : value) (l : list value) :
  rerank unicode_upper subprocess_run req = Ok (VList (x :: l)) ->
  exists p proc,
    prompt unicode_upper req = Ok p
    /\ subprocess_run ARGV p 15 = Ok proc
    /\ Json.loads (clean (stdout proc)) = Ok (VList (x :: l)).
Proof.
  unfold rerank.
  destruct (prompt unicode_upper req) as [p|e]; cbn [bind]; [|discriminate].
  intros E. apply Ok_inj in E. unfold invoke in E. fold ARGV in E.
  destruct (subprocess_run ARGV p 15) as [proc|e] eqn:Er; cbn [bind] in E;
    [|discriminate].
  destruct (validate (stdout proc)) as [out|e] eqn:Ev; [|discriminate].
  subst out. destruct (validate_ok_shape _ _ Ev) as [l' [Hl [Hp _]]].
  injection Hl as <-. now exists p, proc.
Qed.

Lemma nonempty_response_provenance_witness :
  exists p proc,
    prompt no_unicode_upper example_request = Ok p
    /\ exits 0 (lit "[2,0,1]") ARGV p 15 = Ok proc
    /\ Json.loads (clean (stdout proc)) = Ok (VList [VInt 2; VInt 0; VInt 1]).
Proof.
  apply (nonempty_response_provenance no_unicode_upper
           (exits 0 (lit "[2,0,1]")) example_request).
  vm_compute. reflexivity.
Defined.

(** X4.  When the first 8 flattened tokens of [steps] are texts that are
    empty or begin with an ASCII character, the signature is built and has
    at most 8 characters, however many stages and tokens follow. *)
Theorem signature_at_most_8 (unicode_upper : char -> str) (st : value) :
  forallb plain_token (first_tokens st) = true ->
  exists sig,
    signature unicode_upper st = Ok sig /\ (List.length sig <= 8)%nat.
Proof.
  intros H.
  destruct st as [| | | | |l|];
    try (exists []; split; [reflexivity | simpl; lia]).
  cbn [first_tokens] in H.
  destruct (plain_tokens_texts _ H) as [toks [E F]].
  exists (List.concat (map (abbreviation unicode_upper) toks)).
  split; [now apply signature_tokens|].
  assert (Hn : (List.length toks <= 8)%nat).
  { rewrite <- (length_map VStr), <- E. apply firstn_le_length. }
  etransitivity; [apply length_concat_short|].
  - apply Forall_map. eapply Forall_impl; [|exact F].
    intros t [->|Ht]; [simpl; lia|].
    rewrite (abbreviation_ascii_initial unicode_upper t Ht). lia.
  - now rewrite length_map.
Qed.

Lemma signature_at_most_8_witness :
  exists sig,
    signature no_unicode_upper example_stages = Ok sig
    /\ (List.length sig <= 8)%nat.
Proof.
  apply (signature_at_most_8 no_unicode_upper example_stages).
  vm_compute. reflexivity.
Defined.

(** X5.  Whitespace before and after the output of the process does not
    change what it validates to. *)
Theorem validate_ignores_padding (ws1 raw ws2 : str) :
  forallb isspace ws1 = true ->
  forallb isspace ws2 = true ->
  validate (ws1 ++ raw ++ ws2) = validate raw.
Proof.
  intros H1 H2. unfold validate.
  rewrite clean_padded; [reflexivity| |];
    apply Forall_forall; now apply forallb_forall.
Qed.

Lemma validate_ignores_padding_witness :
  validate ([NL; ch " "] ++ lit "[2,0,1]" ++ [NL]) = validate (lit "[2,0,1]").
Proof.
  apply (validate_ignores_padding [NL; ch " "] (lit "[2,0,1]") [NL]);
    reflexivity.
Defined.

(** X6.  An answer wrapped in a fenced block with a language tag validates
    as the answer alone does, when the answer is not blank and is not
    itself fenced. *)
Theorem fenced_tagged_answer (tag body : str) :
  language_tag tag = true ->
  strip body <> [] ->
  startswith FENCE (strip body) = false ->
  validate (fenced tag body) = validate body.
Proof.
  intros Ht Hb Hf. unfold validate.
  now rewrite (clean_fenced_tag tag body Ht Hb), (clean_unfenced body Hf).
Qed.

Lemma fenced_tagged_answer_witness :
  validate (fenced (lit "json") (lit "[2, 0, 1]")) = validate (lit "[2, 0, 1]").
Proof.
  apply (fenced_tagged_answer (lit "json") (lit "[2, 0, 1]")).
  - reflexivity.
  - vm_compute. discriminate.
  - reflexivity.
Defined.

(** X7.  In a fenced block without a language tag, a body of one line is
    parsed as it is; of a body of several lines, only what follows the first
    newline of the stripped body is parsed. *)
Theorem fenced_untagged_answer (body : str) :
  validate (fenced [] body)
  = match split1 NL (strip body) with
    | Some (_, rest) => out <- Json.loads (strip rest) ;; check out
    | None => out <- Json.loads (strip body) ;; check out
    end.
Proof.
  unfold validate. rewrite clean_fenced_untagged.
  now destruct (split1 NL (strip body)) as [[first rest]|].
Qed.

(** X8.  When the process writes a JSON list of integers, with its items
    separated by a comma and any JSON whitespace and each integer within
    the decoder's limit of 4300 digits, the handler returns exactly these
    integers in their order. *)
Theorem written_list_is_returned
    (unicode_upper : char -> str)
    (subprocess_run : list str -> str -> Z -> result CompletedProcess)
    (req : RerankIn) (p : str) (proc : CompletedProcess)
    (ws : str) (l : list Z) :
  prompt unicode_upper req = Ok p ->
  subprocess_run ARGV p 15 = Ok proc ->
  forallb Json.is_ws ws = true ->
  forallb within_digit_limit l = true ->
  stdout proc = render_ints ws l ->
  rerank unicode_upper subprocess_run req = Ok (VList (map VInt l)).
Proof.
  intros Hp Hr Hw Hlim Ho.
  rewrite (rerank_completed _ _ req p proc Hp Hr), Ho.
  rewrite validate_render_ints; [reflexivity| |exact Hlim].
  apply Forall_forall. now apply forallb_forall.
Qed.

Lemma written_list_is_returned_witness :
  rerank no_unicode_upper (exits 0 (lit "[3,1,2]")) example_request
  = Ok (VList [VInt 3; VInt 1; VInt 2]).
Proof.
  apply (written_list_is_returned no_unicode_upper
           (exits 0 (lit "[3,1,2]")) example_request _
           {| returncode := 0; stdout := lit "[3,1,2]"; stderr := [] |}
           [] [3; 1; 2] example_prompt);
    reflexivity.
Defined.

(** X9.  A written list of integers, each within the decoder's limit of
    4300 digits, in a fenced block with a language tag validates to these
    integers. *)
Theorem fenced_written_list (tag ws : str) (l : list Z) :
  language_tag tag = true ->
  forallb Json.is_ws ws = true ->
  forallb within_digit_limit l = true ->
  validate (fenced tag (render_ints ws l)) = Ok (VList (map VInt l)).
Proof.
  intros Ht Hw Hlim.
  assert (Fw : Forall (fun c => Json.is_ws c = true) ws).
  { apply Forall_forall. now apply forallb_forall. }
  unfold validate. rewrite clean_fenced_tag; [|exact Ht|].
  - rewrite strip_render_ints, (loads_render_ints ws l Fw Hlim). cbn [bind].
    apply check_accepts. apply forallb_forall. intros x Hx.
    apply in_map_iff in Hx. destruct Hx as [n [<- _]]. reflexivity.
  - rewrite strip_render_ints. discriminate.
Qed.

Lemma fenced_written_list_witness :
  validate (fenced (lit "json") (render_ints [ch " "] [2; 0; -1]))
  = Ok (VList [VInt 2; VInt 0; VInt (-1)]).
Proof.
  apply (fenced_written_list (lit "json") [ch " "] [2; 0; -1]); reflexivity.
Defined.

(** X10.  An output that, stripped, begins with a character with which
    neither a JSON value nor a fence begins, such as a letter of a sentence,
    gives the fallback: a list further in the text is not looked for. *)
Theorem prose_gives_fallback
    (unicode_upper : char -> str)
    (subprocess_run : list str -> str -> Z -> result CompletedProcess)
    (req : RerankIn) (p : str) (proc : CompletedProcess)
    (c : char) (r : str) :
  prompt unicode_upper req = Ok p ->
  subprocess_run ARGV p 15 = Ok proc ->
  strip (stdout proc) = c :: r ->
  value_start c = false ->
  N.eqb c BACKTICK = false ->
  rerank unicode_upper subprocess_run req = Ok FALLBACK.
Proof.
  intros Hp Hr Hs Hv Hb.
  rewrite (rerank_completed _ _ req p proc Hp Hr).
  unfold validate.
  rewrite clean_unfenced.
  - rewrite Hs, loads_no_value; [reflexivity| |exact Hv].
    now apply (strip_head _ _ _ Hs).
  - rewrite Hs. unfold FENCE. apply (startswith_head_neq BACKTICK).
    now rewrite N.eqb_sym.
Qed.

Lemma prose_gives_fallback_witness :
  rerank no_unicode_upper (exits 0 (lit "Ranking: [2,0,1]")) example_request
  = Ok FALLBACK.
Proof.
  apply (prose_gives_fallback no_unicode_upper
           (exits 0 (lit "Ranking: [2,0,1]")) example_request _
           {| returncode := 0; stdout := lit "Ranking: [2,0,1]";
              stderr := [] |}
           (ch "R") (lit "anking: [2,0,1]") example_prompt);
    reflexivity.
Defined.

Lemma lstrip_nil (p : char -> bool) (s : str) :
  lstrip p s = [] -> Forall (fun c => p c = true) s.
Proof.
  induction s as [|c r IH]; simpl; [constructor|].
  destruct (p c) eqn:E; [|discriminate].
  intros H. constructor; auto.
Qed.

Lemma scan_render_ints_tail (ws : str) (l : list Z) (tail : str) (fuel : nat) :
  Forall (fun c => Json.is_ws c = true) ws ->
  (List.length l < fuel)%nat ->
  Json.scan_once (S fuel) (render_ints ws l ++ tail)
  = if forallb within_digit_limit l
    then Ok (VList (map VInt l), tail)
    else Raise ValueError.
Proof.
  intros Hws Hf. unfold render_ints.
  rewrite <- !app_assoc.
  change (lit "[" ++ join (lit "," ++ ws) (map str_of_int l) ++ lit "]" ++ tail)
    with (ch "[" :: join (lit "," ++ ws) (map str_of_int l) ++ ch "]" :: tail).
  rewrite scan_once_bracket.
  destruct l as [|m l'].
  - reflexivity.
  - destruct (join_ints_head (lit "," ++ ws) m l' (ch "]" :: tail))
      as [x [t [Es [Hx Hb]]]].
    rewrite Es. change (Json.skip_ws (x :: t)) with (lstrip Json.is_ws (x :: t)).
    cbn [lstrip]. rewrite Hx, Hb, <- Es.
    now rewrite (array_items_ints ws (m :: l') Hws); [|discriminate|].
Qed.

Lemma loads_render_ints_junk (ws : str) (l : list Z) (junk : str) :
  Forall (fun c => Json.is_ws c = true) ws ->
  ~ Forall (fun c => Json.is_ws c = true) junk ->
  exists e, Json.loads (render_ints ws l ++ junk) = Raise e.
Proof.
  intros Hws Hj. unfold Json.loads.
  destruct (startswith [65279%N] (render_ints ws l ++ junk));
    [eexists; reflexivity|].
  unfold Json.decode.
  change (Json.skip_ws (render_ints ws l ++ junk))
    with (render_ints ws l ++ junk).
  replace (2 * List.length (render_ints ws l ++ junk) + 2)%nat
    with (S (2 * List.length (render_ints ws l ++ junk) + 1))%nat by lia.
  rewrite scan_render_ints_tail; [|exact Hws|].
  - destruct (forallb within_digit_limit l); cbn [bind];
      [|eexists; reflexivity].
    destruct (Json.skip_ws junk) eqn:E; [|eexists; reflexivity].
    exfalso. apply Hj. now apply lstrip_nil.
  - pose proof (join_ints_length (lit "," ++ ws) l) as Hl.
    unfold render_ints. rewrite !length_app. lia.
Qed.

Lemma clean_render_ints_junk (ws : str) (l : list Z) (junk : str) :
  strip junk <> [] ->
  exists a,
    clean (render_ints ws l ++ junk) = render_ints ws l ++ a ++ strip junk.
Proof.
  intros Hj.
  destruct (strip_split isspace junk) as [a [z [E [Fa [Fz [Hh Hl]]]]]].
  fold (strip junk) in E, Hh, Hl.
  exists a.
  assert (Es : strip (render_ints ws l ++ junk)
               = render_ints ws l ++ a ++ strip junk).
  { rewrite E at 1. unfold strip at 1.
    replace (render_ints ws l ++ a ++ strip junk ++ z)
      with ([] ++ (render_ints ws l ++ a ++ strip junk) ++ z)
      by (cbn [app]; now rewrite <- !app_assoc).
    apply strip_unique; trivial.
    - intros c r X. unfold render_ints in X. injection X as <- _. reflexivity.
    - intros r c X.
      destruct (exists_last Hj) as [r' [d Ed]].
      assert (Y : (render_ints ws l ++ a ++ r') ++ [d] = r ++ [c]).
      { rewrite <- X, Ed. now rewrite <- !app_assoc. }
      apply last_eq in Y. subst c. now apply (Hl r' d). }
  unfold clean. rewrite Es.
  change (startswith FENCE (render_ints ws l ++ a ++ strip junk)) with false.
  reflexivity.
Qed.

(** X11.  A written list of integers followed by any text that is not
    blank gives the fallback. *)
Theorem trailing_text_gives_fallback
    (unicode_upper : char -> str)
    (subprocess_run : list str -> str -> Z -> result CompletedProcess)
    (req : RerankIn) (p : str) (proc : CompletedProcess)
    (ws : str) (l : list Z) (junk : str) :
  prompt unicode_upper req = Ok p ->
  subprocess_run ARGV p 15 = Ok proc ->
  forallb Json.is_ws ws = true ->
  stdout proc = render_ints ws l ++ junk ->
  strip junk <> [] ->
  rerank unicode_upper subprocess_run req = Ok FALLBACK.
Proof.
  intros Hp Hr Hw Ho Hj.
  assert (Fw : Forall (fun c => Json.is_ws c = true) ws).
  { apply Forall_forall. now apply forallb_forall. }
  rewrite (rerank_completed _ _ req p proc Hp Hr), Ho.
  destruct (clean_render_ints_junk ws l junk Hj) as [a Ec].
  unfold validate. rewrite Ec.
  destruct (loads_render_ints_junk ws l (a ++ strip junk) Fw) as [e Ee];
    [|now rewrite Ee].
  intros F. apply Forall_app in F. destruct F as [_ F].
  destruct (strip junk) as [|c r] eqn:Es; [congruence|].
  inversion F as [|? ? Hc _]; subst.
  apply is_ws_isspace in Hc.
  pose proof (strip_head _ _ _ Es). congruence.
Qed.

Lemma trailing_text_gives_fallback_witness :
  rerank no_unicode_upper (exits 0 (lit "[2,0,1] is my ranking."))
    example_request
  = Ok FALLBACK.
Proof.
  apply (trailing_text_gives_fallback no_unicode_upper
           (exits 0 (lit "[2,0,1] is my ranking.")) example_request _
           {| returncode := 0; stdout := lit "[2,0,1] is my ranking.";
              stderr := [] |}
           [] [2; 0; 1] (lit " is my ranking.") example_prompt);
    try reflexivity.
  vm_compute. discriminate.
Defined.
